(** * typeterm: the typing session and the scrolling word layout

    A shallow embedding of [src/typeterm/tui.py]: the [TypingSession] state
    machine ([handle_key], [_submit_word], [_extend_words], [tick]), its
    metrics ([elapsed], [wpm], [accuracy]), the wrapped layout and scroll
    search of [draw_words_area], and the dispatch of the [run_curses] loop.

    Modelling conventions.
    - Python [int]s that are configured or come from the terminal (key codes,
      [cfg.seconds], [cfg.words], viewport sizes, rows and columns) are [Z];
      counters and list indices, which only ever count up from [0], are [nat].
    - Python [float]s (timestamps, metrics) are exact rationals [Q]: the
      value of each expression before rounding.  [accuracy], whose result
      the session reports as a number, is given a second time in double
      precision ([accuracy_double], on the kernel's binary64 floats), where
      the order of the two operations shows in the last bit.
    - [str] is [string]; the program only ever appends [chr ch] for
      [32 <= ch <= 126] to a typed word.
    - A raised [IndexError] (the only exception the session code can raise by
      itself) is [None] in [option].
    - [time.time()] and the word source ([generate_words], which lives in
      [wordlist.py]) are inputs of each call, collected in an [Env]. *)

From Stdlib Require Import ZArith QArith Qminmax Qround Lia String Ascii.
From Stdlib Require Floats Uint63.
From stdpp Require Import base option list strings.

Local Open Scope Z_scope.
Local Open Scope nat_scope.

(** ** Data model *)

Module Config.
Record t := mk {
  mode : string;          (* "time" or "words" *)
  seconds : Z;
  words : Z;
  seed : option Z;
  wordlist_path : option string
}.
End Config.

Record WordState := mkWordState {
  target : string;
  typed : string
}.

(** [WordState(w)]: the dataclass default [typed = ""]. *)
Definition new_word (w : string) : WordState := mkWordState w "".

Record TypingSession := mkSession {
  cfg : Config.t;
  words : list WordState;
  index : nat;
  view_start : nat;
  started_at : option Q;
  ended_at : option Q;
  total_keystrokes : nat;
  correct_chars : nat;
  incorrect_chars : nat;
  completed_words : nat
}.

(** What one call reads from the outside world: the clock readings it may
    take (named after the place that consumes them) and the lists the word
    source hands back. *)
Record Env := mkEnv {
  now_started : Q;        (* [self.started_at = time.time()] *)
  now_elapsed : Q;        (* [time.time()] inside [elapsed()] *)
  now_ended : Q;          (* [self.ended_at = time.time()] *)
  more : list string;     (* [generate_words(100, seed=None, ...)] *)
  drawn : list string     (* [generate_words(nwords, seed=cfg.seed, ...)] *)
}.

(** Field updates (Python attribute assignment). *)
Definition set_words (ws : list WordState) (s : TypingSession) : TypingSession :=
  mkSession (cfg s) ws (index s) (view_start s) (started_at s) (ended_at s)
            (total_keystrokes s) (correct_chars s) (incorrect_chars s) (completed_words s).

Definition set_index (i : nat) (s : TypingSession) : TypingSession :=
  mkSession (cfg s) (words s) i (view_start s) (started_at s) (ended_at s)
            (total_keystrokes s) (correct_chars s) (incorrect_chars s) (completed_words s).

Definition set_view_start (v : nat) (s : TypingSession) : TypingSession :=
  mkSession (cfg s) (words s) (index s) v (started_at s) (ended_at s)
            (total_keystrokes s) (correct_chars s) (incorrect_chars s) (completed_words s).

Definition set_started_at (t : option Q) (s : TypingSession) : TypingSession :=
  mkSession (cfg s) (words s) (index s) (view_start s) t (ended_at s)
            (total_keystrokes s) (correct_chars s) (incorrect_chars s) (completed_words s).

Definition set_ended_at (t : option Q) (s : TypingSession) : TypingSession :=
  mkSession (cfg s) (words s) (index s) (view_start s) (started_at s) t
            (total_keystrokes s) (correct_chars s) (incorrect_chars s) (completed_words s).

Definition set_total_keystrokes (n : nat) (s : TypingSession) : TypingSession :=
  mkSession (cfg s) (words s) (index s) (view_start s) (started_at s) (ended_at s)
            n (correct_chars s) (incorrect_chars s) (completed_words s).

Definition set_correct_chars (n : nat) (s : TypingSession) : TypingSession :=
  mkSession (cfg s) (words s) (index s) (view_start s) (started_at s) (ended_at s)
            (total_keystrokes s) n (incorrect_chars s) (completed_words s).

Definition set_incorrect_chars (n : nat) (s : TypingSession) : TypingSession :=
  mkSession (cfg s) (words s) (index s) (view_start s) (started_at s) (ended_at s)
            (total_keystrokes s) (correct_chars s) n (completed_words s).

Definition set_completed_words (n : nat) (s : TypingSession) : TypingSession :=
  mkSession (cfg s) (words s) (index s) (view_start s) (started_at s) (ended_at s)
            (total_keystrokes s) (correct_chars s) (incorrect_chars s) n.

(** ** [TypingSession.__init__] *)

(** The number of words the constructor asks the word source for. *)
Definition nwords (c : Config.t) : Z :=
  if String.eqb (Config.mode c) "time" then Z.max (Config.words c) 200
  else Config.words c.

(** [drawn e] is what [generate_words(nwords, seed=cfg.seed, ...)] returned
    to the constructor. *)
Definition init (c : Config.t) (e : Env) : TypingSession :=
  mkSession c (map new_word (drawn e)) 0 0 None None 0 0 0 0.

(** ** Metrics *)

Definition elapsed (e : Env) (s : TypingSession) : Q :=
  match started_at s with
  | None => 0%Q
  | Some st =>
      let en := match ended_at s with Some t => t | None => now_elapsed e end in
      Qmax 0 (en - st)
  end.

Definition is_running (s : TypingSession) : bool :=
  match started_at s, ended_at s with
  | Some _, None => true
  | _, _ => false
  end.

Definition is_finished (s : TypingSession) : bool :=
  match ended_at s with Some _ => true | None => false end.

Definition current_word (s : TypingSession) : option WordState :=
  words s !! index s.

Definition wpm (e : Env) (s : TypingSession) : Q :=
  let el := Qmax (elapsed e s) (1 # 1000000000) in
  ((inject_Z (Z.of_nat (correct_chars s)) / 5) / (el / 60))%Q.

(** [accuracy], in exact arithmetic: the value of the expression before
    either operation is rounded. *)
Definition accuracy (s : TypingSession) : Q :=
  let total_chars := correct_chars s + incorrect_chars s in
  if total_chars =? 0 then 100%Q
  else ((inject_Z (Z.of_nat (correct_chars s)) / inject_Z (Z.of_nat total_chars)) * 100)%Q.

(** *** [accuracy] in double precision

    A Python [int] below [2^53] is a double as it stands, and [/] on two
    such [int]s is the correctly rounded quotient, which is binary64
    division of the two doubles.  The counters stay below [2^53] in any
    session a person can type; [float_of_nat] is exact there. *)
Definition float_of_nat (n : nat) : PrimFloat.float :=
  PrimFloat.of_uint63 (Uint63.of_Z (Z.of_nat n)).

Definition hundred : PrimFloat.float := float_of_nat 100.   (* [100.0] *)

(** [accuracy] as the interpreter computes it: the quotient is rounded to a
    double, then its product with [100.0] is. *)
Definition accuracy_double (s : TypingSession) : PrimFloat.float :=
  let total_chars := correct_chars s + incorrect_chars s in
  if total_chars =? 0 then hundred
  else PrimFloat.mul
         (PrimFloat.div (float_of_nat (correct_chars s)) (float_of_nat total_chars))
         hundred.

(** The rational a finite double stands for. *)
Definition float_value (f : PrimFloat.float) : option Q :=
  match FloatOps.Prim2SF f with
  | SpecFloat.S754_zero _ => Some 0%Q
  | SpecFloat.S754_finite sgn m e =>
      Some ((if sgn then -1 else 1) * inject_Z (Z.pos m) * Qpower 2 e)%Q
  | _ => None
  end.

(** ** Keystrokes *)

Definition KEY_BACKSPACE : Z := 263.   (* [curses.KEY_BACKSPACE], 0o407 *)

Definition is_backspace (ch : Z) : bool :=
  ((ch =? KEY_BACKSPACE) || (ch =? 127) || (ch =? 8))%Z.

Definition is_submit (ch : Z) : bool :=
  ((ch =? 10) || (ch =? 13) || (ch =? 32))%Z.

Definition is_printable (ch : Z) : bool :=
  ((32 <=? ch) && (ch <=? 126))%Z.

Definition chr (ch : Z) : ascii := ascii_of_N (Z.to_N ch).

(** [typed[:-1]] *)
Fixpoint drop_last (t : string) : string :=
  match t with
  | EmptyString => EmptyString
  | String _ EmptyString => EmptyString
  | String c r => String c (drop_last r)
  end.

(** [typed + chr(ch)] *)
Definition push_char (t : string) (c : ascii) : string :=
  (t +:+ String c EmptyString)%string.

Definition set_typed (t : string) (w : WordState) : WordState :=
  mkWordState (target w) t.

(** The [for i, c in enumerate(typed)] loop of [_submit_word]: [i] is the
    position of the head of [rest], [cc] and [ic] the two counters. *)
Fixpoint judge (tgt rest : string) (i cc ic : nat) : nat * nat :=
  match rest with
  | EmptyString => (cc, ic)
  | String c r =>
      if (i <? String.length tgt) && bool_decide (String.get i tgt = Some c)
      then judge tgt r (S i) (S cc) ic
      else judge tgt r (S i) cc (S ic)
  end.

Definition _extend_words (e : Env) (s : TypingSession) : TypingSession :=
  set_words (words s ++ map new_word (more e)) s.

Definition _submit_word (e : Env) (s : TypingSession) : option TypingSession :=
  w ← current_word s;
  let tgt := target w in
  let t := typed w in
  let '(cc, ic) := judge tgt t 0 (correct_chars s) (incorrect_chars s) in
  let ic := if String.length t <? String.length tgt
            then ic + (String.length tgt - String.length t) else ic in
  let s := set_incorrect_chars ic (set_correct_chars cc s) in
  let s := set_completed_words (completed_words s + 1) s in
  let s := set_index (index s + 1) s in
  if String.eqb (Config.mode (cfg s)) "words"
     && (Config.words (cfg s) <=? Z.of_nat (completed_words s))%Z
  then Some (set_ended_at (Some (now_ended e)) s)
  else if length (words s) <=? index s
  then Some (_extend_words e s)
  else Some s.

(** [if self.started_at is None: self.started_at = time.time()] *)
Definition start_clock (e : Env) (s : TypingSession) : TypingSession :=
  match started_at s with
  | None => set_started_at (Some (now_started e)) s
  | Some _ => s
  end.

Definition handle_key (e : Env) (ch : Z) (s : TypingSession) : option TypingSession :=
  if is_finished s then Some s else
  let s := start_clock e s in
  if is_backspace ch then
    w ← current_word s;
    match typed w with
    | EmptyString => Some s
    | _ => Some (set_total_keystrokes (total_keystrokes s + 1)
                   (set_words (<[index s := set_typed (drop_last (typed w)) w]> (words s)) s))
    end
  else if is_submit ch then _submit_word e s
  else if is_printable ch then
    w ← current_word s;
    Some (set_total_keystrokes (total_keystrokes s + 1)
            (set_words (<[index s := set_typed (push_char (typed w) (chr ch)) w]> (words s)) s))
  else Some s.

Definition tick (e : Env) (s : TypingSession) : TypingSession :=
  if String.eqb (Config.mode (cfg s)) "time" && is_running s then
    if Qle_bool (inject_Z (Config.seconds (cfg s))) (elapsed e s)
    then set_ended_at (Some (now_ended e)) s
    else s
  else s.

(** ** Layout and scroll search ([draw_words_area]) *)

Section Layout.
Variable s : TypingSession.
Variables height width : Z.

Definition position : Type := nat * Z * Z.   (* (word_index, y, x) *)

(** The [while] loop of the nested [layout]; [ws] is [session.words[idx:]],
    so [idx < len(session.words)] reads [ws <> []]. *)
Fixpoint layout_loop (ws : list WordState) (idx : nat) (y x0 : Z)
         (positions : list position) (current_line : option Z)
  : list position * option Z :=
  match ws with
  | [] => (positions, current_line)
  | wd :: rest =>
      if negb (y <? height)%Z then (positions, current_line) else
      let w := Z.of_nat (String.length (target wd)) in
      let need_space := if (0 <? x0)%Z then 1%Z else 0%Z in
      let wraps := (width <? x0 + need_space + w)%Z in
      let y1 := if wraps then (y + 1)%Z else y in
      let x1 := if wraps then 0%Z else x0 in
      if wraps && (height <=? y1)%Z then (positions, current_line) else
      let need_space := if wraps then 0%Z else need_space in
      let x2 := if (need_space =? 0)%Z then x1 else (x1 + 1)%Z in
      let positions := positions ++ [(idx, y1, x2)] in
      let current_line := if idx =? index s then Some y1 else current_line in
      layout_loop rest (S idx) y1 (x2 + w)%Z positions current_line
  end.

Definition layout (start_idx : nat) : list position * option Z :=
  layout_loop (drop start_idx (words s)) start_idx 0%Z 0%Z [] None.

(** [cur_line is not None and cur_line < height] *)
Definition fits (cur_line : option Z) : bool :=
  match cur_line with
  | Some y => (y <? height)%Z
  | None => false
  end.

(** [for _ in range(n): ... break ... start_idx += 1]; the result is the
    value of [start_idx] when the loop is left. *)
Fixpoint scroll_search (n : nat) (start_idx : nat) : nat :=
  match n with
  | 0 => start_idx
  | S n' =>
      if fits (snd (layout start_idx)) then start_idx
      else scroll_search n' (start_idx + 1)
  end.
End Layout.

Arguments scroll_search : simpl never.

(** The session after the pass, and the positions it goes on to draw. *)
Definition draw_words_area (s : TypingSession) (height width : Z)
  : TypingSession * list position :=
  let start_idx := scroll_search s height width 1000 (view_start s) in
  let s := set_view_start start_idx s in
  (s, fst (layout s height width (view_start s))).

Arguments draw_words_area : simpl never.

(** [render]: only the typing area touches the session. *)
Definition render (s : TypingSession) (h w : Z) : TypingSession :=
  match started_at s with
  | None => s
  | Some _ =>
      if is_finished s then s
      else fst (draw_words_area s (h - 4) (w - 2))
  end.

(** ** The body of the [while True] loop of [run_curses] *)

Inductive outcome :=
| Break                          (* leave the loop *)
| Continue (s : TypingSession).  (* next iteration with this session *)

(** What follows [ch = stdscr.getch()]; [ek] serves [handle_key] (and a
    restart), [et] the [tick] after it. *)
Definition dispatch (ek et : Env) (ch : Z) (s : TypingSession) : option outcome :=
  if (ch =? -1)%Z then Some (Continue (tick et s))
  else if (ch =? 27)%Z then Some Break
  else if (ch =? 9)%Z then Some (Continue (init (cfg s) ek))
  else if negb (is_finished s) then
    s' ← handle_key ek ch s; Some (Continue (tick et s'))
  else Some (Continue (init (cfg s) ek)).

Definition iteration (ek et : Env) (h w : Z) (ch : Z) (s : TypingSession)
  : option outcome :=
  dispatch ek et ch (render s h w).

(** ** Runs: any interleaving of the session's operations *)

Inductive op :=
| Key (e : Env) (ch : Z)
| Tick (e : Env)
| Layout (height width : Z).

Definition apply_op (o : op) (s : TypingSession) : option TypingSession :=
  match o with
  | Key e ch => handle_key e ch s
  | Tick e => Some (tick e s)
  | Layout h w => Some (fst (draw_words_area s h w))
  end.

Fixpoint run (ops : list op) (s : TypingSession) : option TypingSession :=
  match ops with
  | [] => Some s
  | o :: rest => s' ← apply_op o s; run rest s'
  end.

(** ** [WordState] properties *)

(** The [for a, b in zip(self.typed, self.target)] loop of
    [correct_prefix_length]; [n] is the counter, [break] returns it. *)
Fixpoint prefix_loop (t g : string) (n : nat) : nat :=
  match t, g with
  | String a t', String b g' =>
      if Ascii.eqb a b then prefix_loop t' g' (S n) else n
  | _, _ => n
  end.

Definition correct_prefix_length (w : WordState) : nat :=
  prefix_loop (typed w) (target w) 0.

(** [max(0, len(self.typed) - len(self.target))]: subtraction on [nat]
    stops at [0]. *)
Definition extra_count (w : WordState) : nat :=
  String.length (typed w) - String.length (target w).

Definition is_complete (w : WordState) : bool := false.

(** ** [remaining_seconds] *)

(** [int(x)] of a float: truncation towards zero. *)
Definition int_of_float (q : Q) : Z := Z.quot (Qnum q) (Zpos (Qden q)).

Definition remaining_seconds (e : Env) (s : TypingSession) : Z :=
  if negb (String.eqb (Config.mode (cfg s)) "time") then 0%Z
  else
    let secs := (Config.seconds (cfg s) - int_of_float (elapsed e s))%Z in
    Z.max 0 secs.

(** [max(0, session.cfg.words - session.completed_words)], the count in the
    words-mode header of [render]. *)
Definition remaining_words (s : TypingSession) : Z :=
  Z.max 0 (Config.words (cfg s) - Z.of_nat (completed_words s)).

(** ** Drawing: the calls made on [stdscr] *)

(** A drawing function is modelled by the list of calls it makes on
    [stdscr], in order, on a window that takes every one of them.  curses
    raises [curses.error] for a cell outside the window, and the function
    stops at the call that meets it: what a real window receives is a
    prefix of the list.  That exception is not modelled; [None] below
    stands for an [IndexError] and for nothing else. *)

(** The attributes the module passes to curses. *)
Inductive attr :=
| no_attr          (* no attribute argument, or [0] *)
| correct_attr     (* [curses.color_pair(1)] *)
| wrong_attr       (* [curses.color_pair(2)] *)
| cur_attr         (* [curses.A_UNDERLINE | curses.color_pair(3)] *)
| A_BOLD
| A_DIM.

Inductive call :=
| addch (y x : Z) (ch : ascii) (a : attr)
| addnstr (y x : Z) (text : string) (n : Z) (a : attr).

(** [w] is the width [stdscr.getmaxyx()] reports. *)
Definition draw_centered (w : Z) (y : Z) (text : string) (a : attr) : call :=
  let x := Z.max 0 ((w - Z.of_nat (String.length text)) / 2) in
  addnstr y x text (Z.max 0 (w - x)) a.

(** [for i, ch in enumerate(word.target)] of [draw_word_with_progress]. *)
Fixpoint progress_loop (t : string) (y x : Z) (rest : string) (i : nat) : list call :=
  match rest with
  | EmptyString => []
  | String ch r =>
      (if i <? String.length t then
         if bool_decide (String.get i t = Some ch)
         then addch y (x + Z.of_nat i) ch correct_attr
         else addch y (x + Z.of_nat i) ch wrong_attr
       else addch y (x + Z.of_nat i) ch cur_attr)
      :: progress_loop t y x r (S i)
  end.

(** [for j in range(n): ch = typed[len(target) + j]; addch(..., wrong_attr)];
    [None] is the [IndexError] of [typed[...]]. *)
Definition extra_loop (t g : string) (y x : Z) (n : nat) : option (list call) :=
  mapM (λ j, ch ← String.get (String.length g + j) t;
             Some (addch y (x + Z.of_nat (String.length g) + Z.of_nat j) ch wrong_attr))
       (seq 0 n).

Definition draw_word_with_progress (y x : Z) (word : WordState) : option (list call) :=
  let cells := progress_loop (typed word) y x (target word) 0 in
  let extra := extra_count word in
  extras ← extra_loop (typed word) (target word) y x extra;
  Some (cells ++ extras).

(** [for i, ch in enumerate(word.target)] of [draw_word_result]. *)
Fixpoint result_loop (t : string) (y x : Z) (rest : string) (i : nat) : list call :=
  match rest with
  | EmptyString => []
  | String ch r =>
      (if (i <? String.length t) && bool_decide (String.get i t = Some ch)
       then addch y (x + Z.of_nat i) ch correct_attr
       else if i <? String.length t
       then addch y (x + Z.of_nat i) ch wrong_attr
       else addch y (x + Z.of_nat i) ch no_attr)
      :: result_loop t y x r (S i)
  end.

Definition draw_word_result (y x : Z) (word : WordState) : option (list call) :=
  let t := typed word in
  let cells := result_loop t y x (target word) 0 in
  if String.length (target word) <? String.length t then
    extras ← extra_loop t (target word) y x
                        (String.length t - String.length (target word));
    Some (cells ++ extras)
  else Some cells.

(** The body of [for idx, rel_y, rel_x in positions] in [draw_words_area];
    [None] is the [IndexError] of [session.words[idx]]. *)
Definition draw_position (s : TypingSession) (start_y width x : Z) (p : position)
  : option (list call) :=
  let '(idx, rel_y, rel_x) := p in
  word ← words s !! idx;
  let abs_y := (start_y + rel_y)%Z in
  let abs_x := (x + rel_x)%Z in
  if idx =? index s then draw_word_with_progress abs_y abs_x word
  else if (idx <? index s) && negb (String.eqb (typed word) "")
  then draw_word_result abs_y abs_x word
  else Some [addnstr abs_y abs_x (target word) (Z.max 0 (x + width - abs_x)) no_attr].

(** All of [draw_words_area]: the session it leaves and the calls it makes. *)
Definition draw_words_area_calls (s : TypingSession) (start_y height width x : Z)
  : TypingSession * option (list call) :=
  let out := draw_words_area s height width in
  (fst out,
   calls ← mapM (draw_position (fst out) start_y width x) (snd out);
   Some (List.concat calls)).

Arguments draw_words_area_calls : simpl never.

(** ** Vocabulary of the statements *)

(** The positions of [t] the claim calls matching: inside [g] and equal. *)
Definition correct_positions (t g : string) : list nat :=
  filter (λ i, i < String.length g ∧ String.get i t = String.get i g)
         (seq 0 (String.length t)).

(** The positions of [t] that mismatch or lie beyond [g]. *)
Definition incorrect_positions (t g : string) : list nat :=
  filter (λ i, String.get i t ≠ String.get i g ∨ String.length g ≤ i)
         (seq 0 (String.length t)).

Definition is_ignored (ch : Z) : bool :=
  negb (is_backspace ch) && negb (is_submit ch) && negb (is_printable ch).

(** The session [_submit_word] has built when it reaches its final [if]. *)
Definition judged (s : TypingSession) (cc ic : nat) : TypingSession :=
  mkSession (cfg s) (words s) (index s + 1) (view_start s) (started_at s) (ended_at s)
            (total_keystrokes s) cc ic (completed_words s + 1).

Definition target_reached (s : TypingSession) : Prop :=
  Config.mode (cfg s) = "words" ∧
  (Config.words (cfg s) <= Z.of_nat (completed_words s + 1))%Z.

(** What one operation can do to the word stream, the index and the
    completed-word counter: either it moves none of them, or it is a word
    submission. *)
Definition quiet_step (s s' : TypingSession) : Prop :=
  index s' = index s ∧ completed_words s' = completed_words s ∧
  length (words s') = length (words s) ∧
  (ended_at s' = ended_at s ∨ ended_at s = None ∧ is_Some (ended_at s')).

Definition submit_step (batch : list string) (s s' : TypingSession) : Prop :=
  index s < length (words s) ∧ ended_at s = None ∧
  index s' = index s + 1 ∧ completed_words s' = completed_words s + 1 ∧
  ((is_Some (ended_at s') ∧ words s' = words s)
   ∨ (ended_at s' = None ∧ words s' = words s ∧ index s' < length (words s))
   ∨ (ended_at s' = None ∧ words s' = words s ++ map new_word batch ∧
      length (words s) ≤ index s')).

(** A session that is not finished has a current word. *)
Definition has_current_word (s : TypingSession) : Prop :=
  ended_at s = None → index s < length (words s).

(** The word source contract on the batch an operation may consume:
    [generate_words(100, ...)] returns 100 words. *)
Definition batch_ok (o : op) : Prop :=
  match o with
  | Key e _ => length (more e) = 100
  | _ => True
  end.

(** None of the 1000 candidates puts the current word on screen. *)
Definition search_fails (s : TypingSession) (height width : Z) : Prop :=
  ∀ k, k < 1000 →
       fits height (snd (layout s height width (view_start s + k))) = false.

Definition search_failsb (s : TypingSession) (height width : Z) : bool :=
  forallb (λ k, negb (fits height (snd (layout s height width (view_start s + k)))))
          (seq 0 1000).

(** The reading of "the typing area is skipped for that frame": the pass
    draws no word. *)
Definition typing_area_skipped (out : TypingSession * list position) : Prop :=
  snd out = [].

(** The keys [handle_key] appends to the current word: printable, and
    neither the space (a submit key) nor 127 (a backspace key). *)
Definition types_char (ch : Z) : bool := ((33 <=? ch) && (ch <=? 126))%Z.

(** What an editing key (anything but a submit key) may do to a session. *)
Definition edited (e : Env) (ch : Z) (s s' : TypingSession) : Prop :=
  s' = start_clock e s ∨
  ∃ w t', current_word s = Some w ∧
          (t' = drop_last (typed w) ∨
           types_char ch = true ∧ t' = push_char (typed w) (chr ch)) ∧
          s' = set_total_keystrokes (total_keystrokes s + 1)
                 (set_words (<[index s := set_typed t' w]> (words s))
                            (start_clock e s)).

(** One turn of the layout loop on a word of length [w], as a function of
    the cursor [(y, x0)]: where the word goes, or [None] when the loop
    stops. *)
Definition place (height width : Z) (y x0 w : Z) : option (Z * Z) :=
  if negb (y <? height)%Z then None else
  let need_space := if (0 <? x0)%Z then 1%Z else 0%Z in
  if (width <? x0 + need_space + w)%Z
  then if (height <=? y + 1)%Z then None else Some ((y + 1)%Z, 0%Z)
  else Some (y, (x0 + need_space)%Z).

(** The positions the layout loop records, without its accumulators. *)
Fixpoint placing (height width : Z) (ws : list WordState) (idx : nat) (y x0 : Z)
  : list position :=
  match ws with
  | [] => []
  | wd :: rest =>
      let w := Z.of_nat (String.length (target wd)) in
      match place height width y x0 w with
      | None => []
      | Some (y1, x2) =>
          (idx, y1, x2) :: placing height width rest (S idx) y1 (x2 + w)%Z
      end
  end.

(** The columns a placed word is given: from [x] up to [x + len(target)]. *)
Definition word_end (s : TypingSession) (p : position) : Z :=
  match words s !! p.1.1 with
  | Some wd => (p.2 + Z.of_nat (String.length (target wd)))%Z
  | None => p.2
  end.

(** What a submission adds to the two judged counters for a word. *)
Definition judged_correct (wd : WordState) : nat :=
  length (correct_positions (typed wd) (target wd)).

Definition judged_incorrect (wd : WordState) : nat :=
  length (incorrect_positions (typed wd) (target wd))
  + (String.length (target wd) - String.length (typed wd)).

(** The session after the counting and the two increments of
    [_submit_word], on a session whose clock [handle_key] has started. *)
Definition counted (e : Env) (w : WordState) (s : TypingSession) : TypingSession :=
  mkSession (cfg s) (words s) (index s + 1) (view_start s)
            (started_at (start_clock e s)) (ended_at s) (total_keystrokes s)
            (correct_chars s + judged_correct w)
            (incorrect_chars s + judged_incorrect w)
            (completed_words s + 1).

(** The three ways [_submit_word] ends. *)
Definition submitted (e : Env) (w : WordState) (s s' : TypingSession) : Prop :=
  (target_reached s ∧ s' = set_ended_at (Some (now_ended e)) (counted e w s))
  ∨ (¬ target_reached s ∧ length (words s) ≤ index s + 1 ∧
     s' = _extend_words e (counted e w s))
  ∨ (¬ target_reached s ∧ index s + 1 < length (words s) ∧
     s' = counted e w s).

(** One operation of the session, by cases. *)
Inductive step : op → TypingSession → TypingSession → Prop :=
| step_finished e ch s :
    is_finished s = true → step (Key e ch) s s
| step_edit e ch s s' :
    is_finished s = false → is_submit ch = false → edited e ch s s' →
    step (Key e ch) s s'
| step_submit e ch s w s' :
    is_finished s = false → is_submit ch = true → current_word s = Some w →
    submitted e w s s' → step (Key e ch) s s'
| step_tick_idle e s :
    tick e s = s → step (Tick e) s s
| step_tick_ends e s :
    Config.mode (cfg s) = "time" → is_running s = true →
    step (Tick e) s (set_ended_at (Some (now_ended e)) s)
| step_layout h w s v :
    view_start s ≤ v → step (Layout h w) s (set_view_start v s).

(** Every character of a typed string is one a typing key produces. *)
Definition typed_ok (t : string) : Prop :=
  ∀ i c, String.get i t = Some c → (33 <= Z.of_N (N_of_ascii c) <= 126)%Z.

(** Reading a call: its row, its first column, its attribute. *)
Definition call_y (c : call) : Z :=
  match c with addch y _ _ _ => y | addnstr y _ _ _ _ => y end.

Definition call_x (c : call) : Z :=
  match c with addch _ x _ _ => x | addnstr _ x _ _ _ => x end.

Definition call_attr (c : call) : attr :=
  match c with addch _ _ _ a => a | addnstr _ _ _ _ a => a end.

Definition attr_eqb (a b : attr) : bool :=
  match a, b with
  | no_attr, no_attr | correct_attr, correct_attr | wrong_attr, wrong_attr
  | cur_attr, cur_attr | A_BOLD, A_BOLD | A_DIM, A_DIM => true
  | _, _ => false
  end.

(** How many of the calls carry attribute [a]. *)
Definition count_attr (a : attr) (calls : list call) : nat :=
  length (List.filter (λ c, attr_eqb (call_attr c) a) calls).

(** Position by position along both strings: how many characters agree,
    how many differ. *)
Fixpoint agree (t g : string) : nat :=
  match t, g with
  | String a t', String b g' => (if Ascii.eqb a b then 1 else 0) + agree t' g'
  | _, _ => 0
  end.

Fixpoint differ (t g : string) : nat :=
  match t, g with
  | String a t', String b g' => (if Ascii.eqb a b then 0 else 1) + differ t' g'
  | _, _ => 0
  end.

(** [100 * correct / total] as Python evaluates it on [int]s: the product
    is an [int], the quotient a double. *)
Definition percent_of_product (correct total : nat) : PrimFloat.float :=
  PrimFloat.div (float_of_nat (100 * correct)) (float_of_nat total).

(** ** Sample sessions *)

Definition cat_cfg : Config.t := Config.mk "time" 60 50 None None.

Definition pair_cfg : Config.t := Config.mk "words" 60 2 None None.

(** "cot" typed for "cat", not yet submitted. *)
Definition cat_session : TypingSession :=
  mkSession pair_cfg [mkWordState "cat" "cot"; mkWordState "dog" ""]
            0 0 (Some 0%Q) None 3 0 0 0.

Definition quiet_env : Env := mkEnv 0 0 0 [] [].   (* for calls that draw no words *)

Definition fresh_env : Env := mkEnv 5 5 5 (replicate 100 "more"%string) ["cat"; "dog"].

Definition sudden_cfg : Config.t := Config.mk "time" 0 50 None None.

Definition three_cfg : Config.t := Config.mk "words" 60 3 None None.

Definition three_words : list WordState :=
  [mkWordState "cat" "cat"; mkWordState "dog" "dig"; mkWordState "emu" "em"].

(** Two words done, the third typed: the next submit is the third. *)
Definition third_word_session : TypingSession :=
  mkSession three_cfg three_words 2 0 (Some 0%Q) None 8 5 1 2.

(** All three submitted. *)
Definition done_session : TypingSession :=
  mkSession three_cfg three_words 3 0 (Some 0%Q) (Some 9%Q) 8 7 2 3.

Definition batch_env : Env :=
  mkEnv 1 2 3 (replicate 100 "more"%string) (replicate 200 "cat"%string).

(** A session reached by submissions alone in which the current word is
    1001 words past the stored [view_start]: words mode, 2000 one-letter
    words, 1001 of them submitted empty, no layout pass in between. *)
Definition far_cfg : Config.t := Config.mk "words" 60 2000 None None.


Definition far_session : TypingSession :=
  mkSession far_cfg (map new_word (replicate 2000 "a"%string))
            1001 0 (Some 0%Q) None 0 0 1001 1001.

(** A started session whose current word is wider than a 5-column
    viewport. *)
Definition wide_session : TypingSession :=
  mkSession pair_cfg [mkWordState "elephant" ""; mkWordState "dog" ""]
            0 0 (Some 0%Q) None 0 0 0 0.

(** * Properties *)

(** ** Strings *)

Lemma append_cons (a : ascii) (s1 s2 : string) :
  (String a s1 +:+ s2)%string = String a (s1 +:+ s2)%string.
Proof. reflexivity. Qed.

Lemma length_push_prefix (pre : string) (c : ascii) :
  String.length (pre +:+ String c EmptyString) = S (String.length pre).
Proof.
  induction pre as [|a pre IH]; [reflexivity|].
  rewrite append_cons. cbn [String.length]. now rewrite IH.
Qed.

Lemma push_prefix_app (pre : string) (c : ascii) (r : string) :
  ((pre +:+ String c EmptyString) +:+ r)%string = (pre +:+ String c r)%string.
Proof.
  induction pre as [|a pre IH]; [reflexivity|].
  rewrite !append_cons. now rewrite IH.
Qed.

Lemma get_after_prefix (pre : string) (c : ascii) (r : string) :
  String.get (String.length pre) (pre +:+ String c r) = Some c.
Proof.
  induction pre as [|a pre IH]; [reflexivity|].
  rewrite append_cons. exact IH.
Qed.

(** ** Word submission: the counting loop *)

Lemma judge_counts (g : string) :
  ∀ (rest pre : string) (cc ic : nat),
    let t := (pre +:+ rest)%string in
    judge g rest (String.length pre) cc ic =
    (cc + length (filter (λ i, i < String.length g ∧ String.get i t = String.get i g)
                         (seq (String.length pre) (String.length rest))),
     ic + length (filter (λ i, String.get i t ≠ String.get i g ∨ String.length g ≤ i)
                         (seq (String.length pre) (String.length rest)))).
Proof.
  induction rest as [|c r IH]; intros pre cc ic t.
  - simpl. f_equal; lia.
  - cbn [judge String.length seq].
    assert (Hget : String.get (String.length pre) t = Some c)
      by apply get_after_prefix.
    specialize (IH (pre +:+ String c EmptyString)%string).
    rewrite length_push_prefix in IH. cbn zeta in IH.
    rewrite push_prefix_app in IH. fold t in IH.
    rewrite !filter_cons.
    destruct (Nat.ltb_spec (String.length pre) (String.length g)) as [Hlt|Hge];
      cbn [andb].
    + case_bool_decide as Heq.
      * rewrite IH.
        rewrite decide_True by (rewrite Hget; auto).
        rewrite decide_False by (rewrite Hget; intros [?|?]; [congruence | lia]).
        cbn [length]. f_equal; lia.
      * rewrite IH.
        rewrite decide_False by (rewrite Hget; intros [_ ?]; congruence).
        rewrite decide_True by (left; rewrite Hget; congruence).
        cbn [length]. f_equal; lia.
    + rewrite IH.
      rewrite decide_False by (intros [? _]; lia).
      rewrite decide_True by (right; lia).
      cbn [length]. f_equal; lia.
Qed.

Lemma judge_spec (t g : string) (cc ic : nat) :
  judge g t 0 cc ic =
  (cc + length (correct_positions t g), ic + length (incorrect_positions t g)).
Proof. exact (judge_counts g t EmptyString cc ic). Qed.

(** ** Key classification *)

Lemma submit_not_backspace (ch : Z) : is_submit ch = true → is_backspace ch = false.
Proof.
  unfold is_submit, is_backspace, KEY_BACKSPACE.
  rewrite !orb_true_iff, !orb_false_iff, !Z.eqb_eq, !Z.eqb_neq. lia.
Qed.

Lemma handle_key_unfold (e : Env) (ch : Z) (s : TypingSession) :
  is_finished s = false →
  handle_key e ch s =
  let s1 := start_clock e s in
  if is_backspace ch then
    w ← current_word s1;
    match typed w with
    | EmptyString => Some s1
    | _ => Some (set_total_keystrokes (total_keystrokes s1 + 1)
                   (set_words (<[index s1 := set_typed (drop_last (typed w)) w]> (words s1)) s1))
    end
  else if is_submit ch then _submit_word e s1
  else if is_printable ch then
    w ← current_word s1;
    Some (set_total_keystrokes (total_keystrokes s1 + 1)
            (set_words (<[index s1 := set_typed (push_char (typed w) (chr ch)) w]> (words s1)) s1))
  else Some s1.
Proof. intros Hf. unfold handle_key. rewrite Hf. reflexivity. Qed.

Lemma start_clock_frame (e : Env) (s : TypingSession) :
  cfg (start_clock e s) = cfg s ∧ words (start_clock e s) = words s ∧
  index (start_clock e s) = index s ∧ view_start (start_clock e s) = view_start s ∧
  ended_at (start_clock e s) = ended_at s ∧
  total_keystrokes (start_clock e s) = total_keystrokes s ∧
  correct_chars (start_clock e s) = correct_chars s ∧
  incorrect_chars (start_clock e s) = incorrect_chars s ∧
  completed_words (start_clock e s) = completed_words s.
Proof. unfold start_clock. destruct (started_at s); simpl; repeat split. Qed.

Lemma start_clock_started (e : Env) (s : TypingSession) :
  is_Some (started_at (start_clock e s)).
Proof. unfold start_clock. destruct (started_at s) eqn:E; simpl; [rewrite E|]; eauto. Qed.

(** The counters after [_submit_word], whichever branch ends it. *)
Lemma submit_word_counters (e : Env) (s : TypingSession) (w : WordState) :
  current_word s = Some w →
  ∃ s', _submit_word e s = Some s' ∧
    correct_chars s' =
      correct_chars s + length (correct_positions (typed w) (target w)) ∧
    incorrect_chars s' =
      incorrect_chars s + length (incorrect_positions (typed w) (target w))
      + (String.length (target w) - String.length (typed w)) ∧
    completed_words s' = completed_words s + 1 ∧
    index s' = index s + 1.
Proof.
  intros Hw. unfold _submit_word. rewrite Hw. cbn [mbind option_bind].
  rewrite judge_spec.
  assert (Hic : ∀ n, (if String.length (typed w) <? String.length (target w)
                      then n + (String.length (target w) - String.length (typed w))
                      else n)
                     = n + (String.length (target w) - String.length (typed w))).
  { intros n. destruct (Nat.ltb_spec (String.length (typed w))
                                     (String.length (target w))); lia. }
  rewrite Hic.
  repeat case_match; eexists; (split; [reflexivity|]); simpl; repeat split.
Qed.

(** ** C1: submission accounting *)

(** C1. A word submission (a submit key on a session that is not finished)
    with typed string [t] and target [g] adds to [correct_chars] the number
    of positions [i < len t] with [i < len g] and [t[i] = g[i]], and to
    [incorrect_chars] the number of positions [i < len t] that mismatch or
    lie beyond [g], plus [max 0 (len g - len t)].  In particular
    "cat"/"cot" adds 2 and 1, "cat"/"" adds 0 and 3, "hi"/"hire" adds 2 and 2. *)
Theorem submission_accounting (e : Env) (ch : Z) (s : TypingSession) (w : WordState) :
  is_finished s = false →
  is_submit ch = true →
  current_word s = Some w →
  let t := typed w in
  let g := target w in
  ∃ s', handle_key e ch s = Some s' ∧
    correct_chars s' = correct_chars s + length (correct_positions t g) ∧
    Z.of_nat (incorrect_chars s') =
      (Z.of_nat (incorrect_chars s) + Z.of_nat (length (incorrect_positions t g))
       + Z.max 0 (Z.of_nat (String.length g) - Z.of_nat (String.length t)))%Z ∧
    (g = "cat" → t = "cot" →
       correct_chars s' = correct_chars s + 2 ∧
       incorrect_chars s' = incorrect_chars s + 1) ∧
    (g = "cat" → t = "" →
       correct_chars s' = correct_chars s + 0 ∧
       incorrect_chars s' = incorrect_chars s + 3) ∧
    (g = "hi" → t = "hire" →
       correct_chars s' = correct_chars s + 2 ∧
       incorrect_chars s' = incorrect_chars s + 2).
Proof.
  intros Hf Hsub Hw t g.
  rewrite (handle_key_unfold _ _ _ Hf). cbn zeta.
  rewrite (submit_not_backspace _ Hsub), Hsub.
  destruct (start_clock_frame e s) as (_ & Hws & Hix & _ & _ & _ & Hcc & Hic & _).
  assert (Hw1 : current_word (start_clock e s) = Some w)
    by (unfold current_word; rewrite Hws, Hix; exact Hw).
  destruct (submit_word_counters e _ _ Hw1) as (s' & Hs' & Hc & Hi & _ & _).
  exists s'. rewrite Hcc in Hc. rewrite Hic in Hi. fold t g in Hc, Hi.
  split; [exact Hs'|]. split; [exact Hc|]. split; [lia|].
  split; [|split]; intros Hg Ht; rewrite Hg, Ht in Hc, Hi.
  - change (length (correct_positions "cot" "cat")) with 2 in Hc.
    change (length (incorrect_positions "cot" "cat")) with 1 in Hi.
    simpl in Hi. lia.
  - change (length (correct_positions "" "cat")) with 0 in Hc.
    change (length (incorrect_positions "" "cat")) with 0 in Hi.
    simpl in Hi. lia.
  - change (length (correct_positions "hire" "hi")) with 2 in Hc.
    change (length (incorrect_positions "hire" "hi")) with 2 in Hi.
    simpl in Hi. lia.
Qed.

Lemma submission_accounting_witness :
  ∃ s', handle_key quiet_env 32 cat_session = Some s' ∧
        correct_chars s' = 2 ∧ incorrect_chars s' = 1.
Proof.
  destruct (submission_accounting quiet_env 32 cat_session (mkWordState "cat" "cot")
              eq_refl eq_refl eq_refl) as (s' & Hs' & _ & _ & Hcat & _).
  exists s'. split; [exact Hs'|]. exact (Hcat eq_refl eq_refl).
Defined.

(** ** C2: keys that are neither backspace, submit nor printable *)

(** C2, as the code has it. On a session that is not finished, a key that
    is neither backspace, submit nor printable changes nothing once the
    session has started; on a session that has not started it records
    [started_at] (the clock is started before the key is classified) and
    changes no other field. *)
Theorem ignored_key_starts_clock_only (e : Env) (ch : Z) (s : TypingSession) :
  is_finished s = false →
  is_ignored ch = true →
  (∀ t, started_at s = Some t → handle_key e ch s = Some s) ∧
  (started_at s = None →
     handle_key e ch s = Some (set_started_at (Some (now_started e)) s)).
Proof.
  intros Hf Hig. unfold is_ignored in Hig.
  apply andb_prop in Hig as [Hig Hp]. apply andb_prop in Hig as [Hb Hs].
  apply negb_true_iff in Hb, Hs, Hp.
  rewrite (handle_key_unfold _ _ _ Hf). cbn zeta. rewrite Hb, Hs, Hp.
  unfold start_clock. split.
  - intros t Ht. now rewrite Ht.
  - intros Hn. now rewrite Hn.
Qed.

Lemma ignored_key_starts_clock_only_witness :
  handle_key fresh_env 259 (init pair_cfg fresh_env)
  = Some (set_started_at (Some 5%Q) (init pair_cfg fresh_env))
  ∧ handle_key fresh_env 259 cat_session = Some cat_session.
Proof.
  split.
  - exact (proj2 (ignored_key_starts_clock_only fresh_env 259
                    (init pair_cfg fresh_env) eq_refl eq_refl) eq_refl).
  - exact (proj1 (ignored_key_starts_clock_only fresh_env 259
                    cat_session eq_refl eq_refl) 0%Q eq_refl).
Defined.

(** The claim as stated fails on a fresh session: the arrow key [259]
    ([curses.KEY_UP]) is ignored by the classification, yet the session it
    leaves behind has [started_at] set. *)
Lemma ignored_key_changes_fresh_session :
  let s := init pair_cfg fresh_env in
  is_finished s = false ∧ is_backspace 259 = false ∧ is_submit 259 = false ∧
  is_printable 259 = false ∧ started_at s = None ∧
  handle_key fresh_env 259 s ≠ Some s ∧
  (∃ s', handle_key fresh_env 259 s = Some s' ∧ started_at s' = Some 5%Q).
Proof.
  cbn zeta. repeat split; try reflexivity.
  - intros H. vm_compute in H. discriminate H.
  - eexists. split; reflexivity.
Qed.

(** ** The shape of a step *)

Lemma submit_word_cases (e : Env) (s s' : TypingSession) :
  _submit_word e s = Some s' →
  ∃ w cc ic, current_word s = Some w ∧
    ((target_reached s ∧ s' = set_ended_at (Some (now_ended e)) (judged s cc ic))
     ∨ (¬ target_reached s ∧ length (words s) ≤ index s + 1 ∧
        s' = _extend_words e (judged s cc ic))
     ∨ (¬ target_reached s ∧ index s + 1 < length (words s) ∧
        s' = judged s cc ic)).
Proof.
  unfold _submit_word, target_reached. intros H.
  destruct (current_word s) as [w|] eqn:Hw; [|discriminate].
  cbn [mbind option_bind] in H.
  destruct (judge _ _ _ _ _) as [cc ic0].
  set (ic := if String.length (typed w) <? String.length (target w)
             then ic0 + (String.length (target w) - String.length (typed w))
             else ic0) in H.
  exists w, cc, ic. split; [reflexivity|]. simpl in H.
  destruct (String.eqb_spec (Config.mode (cfg s)) "words") as [Hm|Hm];
    cbn [andb] in H.
  - destruct (Z.leb_spec (Config.words (cfg s)) (Z.of_nat (completed_words s + 1))).
    + left. inversion H. auto.
    + destruct (Nat.leb_spec (length (words s)) (index s + 1));
        inversion H; [right; left | right; right]; repeat split; auto; lia.
  - destruct (Nat.leb_spec (length (words s)) (index s + 1));
      inversion H; [right; left | right; right]; repeat split; auto;
      intros [? _]; congruence.
Qed.

Lemma handle_key_cases (e : Env) (ch : Z) (s s' : TypingSession) :
  is_finished s = false →
  handle_key e ch s = Some s' →
  (∃ ws tk, length ws = length (words s) ∧
            s' = set_total_keystrokes tk (set_words ws (start_clock e s)))
  ∨ (is_submit ch = true ∧ _submit_word e (start_clock e s) = Some s').
Proof.
  intros Hf. rewrite (handle_key_unfold _ _ _ Hf). cbn zeta.
  destruct (start_clock_frame e s) as (_ & Hws & _).
  assert (Hid : ∀ s1 : TypingSession,
             s1 = set_total_keystrokes (total_keystrokes s1) (set_words (words s1) s1))
    by (intros []; reflexivity).
  destruct (is_backspace ch).
  - destruct (current_word _) as [w|]; [|discriminate]. cbn [mbind option_bind].
    intros H. left. destruct (typed w); inversion H.
    + exists (words (start_clock e s)), (total_keystrokes (start_clock e s)).
      split; [now rewrite Hws | apply Hid].
    + eexists _, _. split; [|reflexivity]. now rewrite length_insert, Hws.
  - destruct (is_submit ch); [intros H; right; auto|].
    destruct (is_printable ch).
    + destruct (current_word _) as [w|]; [|discriminate]. cbn [mbind option_bind].
      intros H. left. inversion H.
      eexists _, _. split; [|reflexivity]. now rewrite length_insert, Hws.
    + intros H. left. inversion H.
      exists (words (start_clock e s)), (total_keystrokes (start_clock e s)).
      split; [now rewrite Hws | apply Hid].
Qed.

Lemma handle_key_finished (e : Env) (ch : Z) (s : TypingSession) :
  is_finished s = true → handle_key e ch s = Some s.
Proof. intros Hf. unfold handle_key. now rewrite Hf. Qed.

Lemma is_finished_false (s : TypingSession) :
  is_finished s = false ↔ ended_at s = None.
Proof. unfold is_finished. destruct (ended_at s); split; congruence. Qed.

Lemma is_finished_true (s : TypingSession) :
  is_finished s = true ↔ is_Some (ended_at s).
Proof.
  unfold is_finished. destruct (ended_at s); split; try congruence; eauto.
  intros [? ?]. discriminate.
Qed.

(** ** C3: the time limit *)

Lemma elapsed_running (e : Env) (s : TypingSession) (st : Q) :
  started_at s = Some st → ended_at s = None →
  elapsed e s = Qmax 0 (now_elapsed e - st).
Proof. intros H1 H2. unfold elapsed. now rewrite H1, H2. Qed.

Lemma elapsed_nonneg (e : Env) (s : TypingSession) : (0 <= elapsed e s)%Q.
Proof.
  unfold elapsed. destruct (started_at s); [apply Q.le_max_l | apply Qle_refl].
Qed.

Lemma is_running_spec (s : TypingSession) :
  is_running s = true ↔ is_Some (started_at s) ∧ ended_at s = None.
Proof.
  unfold is_running. destruct (started_at s), (ended_at s); split;
    try congruence; try (intros [[? ?] ?]; congruence); eauto.
Qed.

Lemma tick_fires (e : Env) (s : TypingSession) :
  Config.mode (cfg s) = "time" → is_running s = true →
  (inject_Z (Config.seconds (cfg s)) <= elapsed e s)%Q →
  tick e s = set_ended_at (Some (now_ended e)) s.
Proof.
  intros Hm Hr Hle. unfold tick. rewrite Hm, Hr. cbn [String.eqb andb].
  apply Qle_bool_iff in Hle. now rewrite Hle.
Qed.

Lemma tick_waits (e : Env) (s : TypingSession) :
  (elapsed e s < inject_Z (Config.seconds (cfg s)))%Q → tick e s = s.
Proof.
  intros Hlt. unfold tick.
  destruct (_ && _); [|reflexivity].
  destruct (Qle_bool _ _) eqn:Hb; [|reflexivity].
  apply Qle_bool_iff in Hb. exfalso. exact (Qlt_not_le _ _ Hlt Hb).
Qed.

Lemma tick_other_mode (e : Env) (s : TypingSession) :
  Config.mode (cfg s) ≠ "time" → tick e s = s.
Proof.
  intros Hm. unfold tick.
  destruct (String.eqb_spec (Config.mode (cfg s)) "time"); [contradiction | reflexivity].
Qed.

Lemma tick_not_running (e : Env) (s : TypingSession) :
  is_running s = false → tick e s = s.
Proof. intros Hr. unfold tick. rewrite Hr, andb_false_r. reflexivity. Qed.

(** In time mode a key never ends the session by itself, so the [tick]
    that follows it in the loop finds the session running. *)
Lemma handle_key_time_mode (e : Env) (ch : Z) (s s' : TypingSession) :
  Config.mode (cfg s) = "time" → is_finished s = false →
  handle_key e ch s = Some s' →
  cfg s' = cfg s ∧ is_running s' = true.
Proof.
  intros Hm Hf Hk.
  destruct (start_clock_frame e s) as (Hc & _ & _ & _ & He & _).
  destruct (start_clock_started e s) as [st Hst].
  apply is_finished_false in Hf.
  assert (Hrun : ∀ x, started_at x = started_at (start_clock e s) →
                      ended_at x = ended_at (start_clock e s) →
                      is_running x = true).
  { intros x Hx1 Hx2. apply is_running_spec. rewrite Hx1, Hx2, Hst, He. eauto. }
  destruct (handle_key_cases _ _ _ _ (proj2 (is_finished_false s) Hf) Hk)
    as [(ws & tk & _ & ->) | [_ Hsub]].
  - split; [exact Hc | now apply Hrun].
  - apply submit_word_cases in Hsub as (w & cc & ic & _ & Hcase).
    destruct Hcase as [[[Hw _] _] | [(_ & _ & ->) | (_ & _ & ->)]].
    + rewrite Hc, Hm in Hw. discriminate.
    + split; [exact Hc | now apply Hrun].
    + split; [exact Hc | now apply Hrun].
Qed.

(** The first key of a fresh session with a word to type: the call returns,
    and the only key that completes a word is a submit key. *)
Lemma first_key_completed_words (c : Config.t) (e0 ek : Env) (ch : Z) :
  drawn e0 ≠ [] →
  ∃ s1, handle_key ek ch (init c e0) = Some s1 ∧
        completed_words s1 = if is_submit ch then 1 else 0.
Proof.
  intros Hd.
  assert (Hcw : ∃ w, current_word (start_clock ek (init c e0)) = Some w).
  { destruct (drawn e0) as [|d ds] eqn:E; [contradiction|].
    exists (new_word d). unfold current_word, start_clock, init. simpl.
    now rewrite E. }
  destruct Hcw as [w Hw].
  rewrite handle_key_unfold by reflexivity. cbn zeta.
  destruct (is_submit ch) eqn:Hsub.
  - rewrite (submit_not_backspace _ Hsub).
    destruct (submit_word_counters ek _ w Hw) as (s' & Hs' & _ & _ & Hc & _).
    exists s'. split; [exact Hs' | rewrite Hc; reflexivity].
  - rewrite Hw. cbn [mbind option_bind].
    destruct (is_backspace ch); [destruct (typed w) | destruct (is_printable ch)];
      eexists; (split; [reflexivity|]); reflexivity.
Qed.

(** C3, as the code has it. In time mode [tick] ends a running session
    exactly when the elapsed time has reached [cfg.seconds] (in particular
    when [now - started_at] has); the loop runs this check on the idle tick
    ([getch] returning -1) and after every key it hands to [handle_key]; and
    with [seconds = 0] the first [tick] of a started session sets [ended_at]
    and leaves [completed_words] as it is.  For a fresh session that is [0]
    when the key that started it was not a submit key and [1] when it was:
    a submit key starts the clock and submits the (empty) first word in the
    same call. *)
Theorem time_mode_termination :
  (∀ e s st,
      Config.mode (cfg s) = "time" → started_at s = Some st → ended_at s = None →
      ((inject_Z (Config.seconds (cfg s)) <= now_elapsed e - st)%Q →
         ended_at (tick e s) = Some (now_ended e)) ∧
      ((inject_Z (Config.seconds (cfg s)) <= elapsed e s)%Q →
         tick e s = set_ended_at (Some (now_ended e)) s) ∧
      ((elapsed e s < inject_Z (Config.seconds (cfg s)))%Q → tick e s = s))
  ∧ (∀ ek et s, dispatch ek et (-1) s = Some (Continue (tick et s)))
  ∧ (∀ ek et ch s,
        ch ≠ (-1)%Z → ch ≠ 27%Z → ch ≠ 9%Z → is_finished s = false →
        dispatch ek et ch s = (s' ← handle_key ek ch s; Some (Continue (tick et s')))
        ∧ (Config.mode (cfg s) = "time" →
           ∀ s', handle_key ek ch s = Some s' →
                 cfg s' = cfg s ∧ is_running s' = true))
  ∧ (∀ e s,
        Config.mode (cfg s) = "time" → Config.seconds (cfg s) = 0%Z →
        is_running s = true →
        ended_at (tick e s) = Some (now_ended e) ∧
        completed_words (tick e s) = completed_words s)
  ∧ (∀ c e0 ek et ch,
        Config.mode c = "time" → Config.seconds c = 0%Z → drawn e0 ≠ [] →
        ∃ s1, handle_key ek ch (init c e0) = Some s1 ∧
              is_running s1 = true ∧
              ended_at (tick et s1) = Some (now_ended et) ∧
              completed_words (tick et s1) = if is_submit ch then 1 else 0).
Proof.
  assert (Hzero : ∀ e s,
             Config.mode (cfg s) = "time" → Config.seconds (cfg s) = 0%Z →
             is_running s = true →
             tick e s = set_ended_at (Some (now_ended e)) s).
  { intros e s Hm Hs Hr. apply tick_fires; auto.
    rewrite Hs. apply elapsed_nonneg. }
  split; [|split; [|split; [|split]]].
  - intros e s st Hm Hst Hen.
    assert (Hr : is_running s = true) by (apply is_running_spec; rewrite Hst; eauto).
    split; [|split].
    + intros Hle. rewrite tick_fires; auto.
      rewrite (elapsed_running _ _ _ Hst Hen).
      eapply Qle_trans; [exact Hle | apply Q.le_max_r].
    + now apply tick_fires.
    + apply tick_waits.
  - reflexivity.
  - intros ek et ch s H1 H2 H3 Hf. split.
    + unfold dispatch. rewrite Hf.
      destruct (Z.eqb_spec ch (-1)); [contradiction|].
      destruct (Z.eqb_spec ch 27); [contradiction|].
      destruct (Z.eqb_spec ch 9); [contradiction|]. reflexivity.
    + intros Hm s' Hk. eapply handle_key_time_mode; eauto.
  - intros e s Hm Hs Hr. now rewrite Hzero.
  - intros c e0 ek et ch Hm Hs Hd.
    destruct (first_key_completed_words c e0 ek ch Hd) as (s1 & Hk & Hcw).
    destruct (handle_key_time_mode ek ch (init c e0) s1 Hm eq_refl Hk) as [Hc Hr].
    change (cfg (init c e0)) with c in Hc.
    exists s1. split; [exact Hk|]. split; [exact Hr|].
    rewrite Hzero; [| now rewrite Hc | now rewrite Hc | exact Hr].
    split; [reflexivity | exact Hcw].
Qed.

Lemma time_mode_termination_witness :
  ∃ s1, handle_key batch_env 97 (init sudden_cfg batch_env) = Some s1 ∧
        is_running s1 = true ∧
        ended_at (tick batch_env s1) = Some 3%Q ∧
        completed_words (tick batch_env s1) = 0.
Proof.
  assert (Hd : drawn batch_env ≠ []) by discriminate.
  exact (proj2 (proj2 (proj2 (proj2 time_mode_termination)))
           sudden_cfg batch_env batch_env batch_env 97%Z eq_refl eq_refl Hd).
Defined.

(** C3 as first stated promises [completed_words = 0] at the tick that ends
    a [seconds = 0] session.  Start the session with the space bar: the key
    starts the clock and submits the first word, the [tick] the loop runs
    next ends the session, and one word is completed. *)
Lemma submit_key_start_completes_a_word :
  ∃ s1 s2, handle_key batch_env 32 (init sudden_cfg batch_env) = Some s1 ∧
           started_at (init sudden_cfg batch_env) = None ∧
           is_running s1 = true ∧
           dispatch batch_env batch_env 32 (init sudden_cfg batch_env)
             = Some (Continue s2) ∧
           s2 = tick batch_env s1 ∧
           ended_at s2 = Some 3%Q ∧
           completed_words s2 = 1 ∧
           completed_words s2 ≠ 0.
Proof.
  eexists _, _.
  split; [vm_compute; reflexivity|].
  split; [reflexivity|].
  split; [reflexivity|].
  split; [vm_compute; reflexivity|].
  split; [vm_compute; reflexivity|].
  split; [reflexivity|].
  split; [reflexivity | discriminate].
Qed.

(** ** C4: the word limit *)

(** C4. In words mode a submission that brings [completed_words] to
    [cfg.words] sets [ended_at] at once, whatever the clock says, and a
    submission that leaves [completed_words] below [cfg.words] leaves
    [ended_at] unset; the [tick] the loop runs afterwards changes
    nothing. *)
Theorem words_mode_termination (e : Env) (ch : Z) (s : TypingSession) (w : WordState) :
  Config.mode (cfg s) = "words" →
  is_finished s = false →
  is_submit ch = true →
  current_word s = Some w →
  ∃ s', handle_key e ch s = Some s' ∧
    completed_words s' = completed_words s + 1 ∧
    ((Config.words (cfg s) <= Z.of_nat (completed_words s'))%Z →
       ended_at s' = Some (now_ended e)) ∧
    ((Z.of_nat (completed_words s') < Config.words (cfg s))%Z →
       ended_at s' = None) ∧
    (∀ et, tick et s' = s').
Proof.
  intros Hm Hf Hsub Hw.
  rewrite (handle_key_unfold _ _ _ Hf). cbn zeta.
  rewrite (submit_not_backspace _ Hsub), Hsub.
  destruct (start_clock_frame e s) as (Hc & Hws & Hix & _ & He & _ & _ & _ & Hcw).
  assert (Hw1 : current_word (start_clock e s) = Some w)
    by (unfold current_word; rewrite Hws, Hix; exact Hw).
  destruct (submit_word_counters e _ _ Hw1) as (s' & Hs' & _ & _ & Hn & _).
  exists s'. split; [exact Hs'|]. rewrite Hcw in Hn. split; [exact Hn|].
  apply is_finished_false in Hf.
  apply submit_word_cases in Hs' as (w' & cc & ic & _ & Hcase).
  unfold target_reached in Hcase. rewrite Hc, Hcw, Hm in Hcase.
  assert (Hcfg : cfg s' = cfg s).
  { destruct Hcase as [[_ ->] | [(_ & _ & ->) | (_ & _ & ->)]]; exact Hc. }
  split; [|split].
  - intros Hle. destruct Hcase as [[_ ->] | [(Hno & _) | (Hno & _)]];
      [reflexivity | |]; exfalso; apply Hno; split; auto; lia.
  - intros Hlt. destruct Hcase as [[[_ Hle] _] | [(_ & _ & ->) | (_ & _ & ->)]];
      [lia | |]; simpl; congruence.
  - intros et. apply tick_other_mode. rewrite Hcfg, Hm. discriminate.
Qed.

Lemma words_mode_termination_witness :
  ∃ s', handle_key fresh_env 32 third_word_session = Some s' ∧
        completed_words s' = 3 ∧ ended_at s' = Some 5%Q.
Proof.
  destruct (words_mode_termination fresh_env 32 third_word_session
              (mkWordState "emu" "em") eq_refl eq_refl eq_refl eq_refl)
    as (s' & Hs' & Hn & Hend & _ & _).
  exists s'. split; [exact Hs'|]. split; [exact Hn|].
  apply Hend. rewrite Hn. discriminate.
Defined.

(** ** C5: a finished session stays as it is *)

Lemma tick_finished (e : Env) (s : TypingSession) :
  is_finished s = true → tick e s = s.
Proof.
  intros Hf. apply tick_not_running. apply is_finished_true in Hf as [t Ht].
  unfold is_running. rewrite Ht. now destruct (started_at s).
Qed.

Lemma draw_words_area_frame (s : TypingSession) (h w : Z) :
  fst (draw_words_area s h w) = set_view_start (view_start (fst (draw_words_area s h w))) s.
Proof. unfold draw_words_area. cbv zeta. cbn [fst set_view_start view_start]. reflexivity. Qed.

Lemma apply_op_keeps_ended_at (o : op) (s s' : TypingSession) (t : Q) :
  ended_at s = Some t → apply_op o s = Some s' → ended_at s' = Some t.
Proof.
  intros Ht Ho.
  assert (Hf : is_finished s = true) by (apply is_finished_true; eauto).
  destruct o as [e ch | e | h w]; cbn [apply_op] in Ho.
  - rewrite handle_key_finished in Ho by exact Hf. congruence.
  - rewrite tick_finished in Ho by exact Hf. congruence.
  - rewrite draw_words_area_frame in Ho. inversion Ho. exact Ht.
Qed.

Lemma run_keeps_ended_at (ops : list op) :
  ∀ (s s' : TypingSession) (t : Q),
    ended_at s = Some t → run ops s = Some s' → ended_at s' = Some t.
Proof.
  induction ops as [|o ops IH]; intros s s' t Ht Hr; simpl in Hr.
  - congruence.
  - destruct (apply_op o s) as [s1|] eqn:Ho; [|discriminate].
    cbn [mbind option_bind] in Hr.
    eapply IH; [|exact Hr]. eapply apply_op_keeps_ended_at; eauto.
Qed.

(** C5. Once [ended_at] is set, [handle_key] (for any key) and [tick] return
    the session unchanged, and no sequence of session operations (keys,
    ticks, layout passes) changes [ended_at] again. *)
Theorem finished_is_terminal (s : TypingSession) (t : Q) :
  ended_at s = Some t →
  (∀ e ch, handle_key e ch s = Some s) ∧
  (∀ e, tick e s = s) ∧
  (∀ ops s', run ops s = Some s' → ended_at s' = Some t).
Proof.
  intros Ht.
  assert (Hf : is_finished s = true) by (apply is_finished_true; eauto).
  split; [|split].
  - intros e ch. now apply handle_key_finished.
  - intros e. now apply tick_finished.
  - intros ops s'. now apply run_keeps_ended_at.
Qed.

Lemma finished_is_terminal_witness :
  handle_key fresh_env 97 done_session = Some done_session ∧
  tick fresh_env done_session = done_session ∧
  (∀ s', run [Key fresh_env 32; Tick fresh_env; Layout 5 40] done_session = Some s' →
         ended_at s' = Some 9%Q).
Proof.
  destruct (finished_is_terminal done_session 9%Q eq_refl) as (Hk & Ht & Hr).
  split; [apply Hk|]. split; [apply Ht|]. intros s'. apply Hr.
Defined.

(** ** Steps and runs *)

Lemma submit_word_step (e : Env) (s s' : TypingSession) :
  ended_at s = None → _submit_word e s = Some s' → submit_step (more e) s s'.
Proof.
  intros He Hs. apply submit_word_cases in Hs as (w & cc & ic & Hw & Hcase).
  apply lookup_lt_Some in Hw. unfold submit_step.
  destruct Hcase as [[_ ->] | [(_ & Hlen & ->) | (_ & Hlen & ->)]]; simpl;
    repeat split; eauto 6.
Qed.

Lemma apply_op_step (o : op) (s s' : TypingSession) :
  apply_op o s = Some s' →
  quiet_step s s' ∨ (∃ e ch, o = Key e ch ∧ submit_step (more e) s s').
Proof.
  destruct o as [e ch | e | h w]; cbn [apply_op]; intros Ho.
  - destruct (is_finished s) eqn:Hf.
    + rewrite handle_key_finished in Ho by exact Hf. inversion Ho.
      left. unfold quiet_step. auto.
    + destruct (start_clock_frame e s) as (_ & Hws & Hix & _ & He & _ & _ & _ & Hcw).
      apply is_finished_false in Hf as Hn.
      destruct (handle_key_cases _ _ _ _ Hf Ho) as [(ws & tk & Hlen & ->) | [_ Hsub]].
      * left. unfold quiet_step. simpl. auto.
      * right. exists e, ch. split; [reflexivity|].
        apply submit_word_step in Hsub; [|congruence].
        unfold submit_step in *. rewrite Hws, Hix, He, Hcw in Hsub. exact Hsub.
  - injection Ho as <-. left. unfold quiet_step, tick.
    destruct (_ && _) eqn:Hc; [|auto].
    destruct (Qle_bool _ _); [|auto]. simpl. repeat split; auto.
    right. apply andb_prop in Hc as [_ Hr]. apply is_running_spec in Hr as [_ Hr].
    eauto.
  - injection Ho as <-. left.
    unfold quiet_step. cbn [set_view_start index completed_words words ended_at]. auto.
Qed.

Lemma run_invariant (P : TypingSession → Prop) (ops : list op) :
  Forall (λ o, ∀ s s', P s → apply_op o s = Some s' → P s') ops →
  ∀ s s', P s → run ops s = Some s' → P s'.
Proof.
  induction 1 as [|o ops Ho _ IH]; intros s s' HP Hr; simpl in Hr.
  - congruence.
  - destruct (apply_op o s) as [s1|] eqn:E; [|discriminate].
    cbn [mbind option_bind] in Hr. eauto.
Qed.

Lemma run_invariant_all (P : TypingSession → Prop) :
  (∀ o s s', P s → apply_op o s = Some s' → P s') →
  ∀ ops s s', P s → run ops s = Some s' → P s'.
Proof.
  intros Hstep ops. apply run_invariant. apply Forall_forall. intros o _. apply Hstep.
Qed.

Lemma apply_op_has_current_word (o : op) (s s' : TypingSession) :
  batch_ok o → has_current_word s → apply_op o s = Some s' → has_current_word s'.
Proof.
  intros Hb Hc Ho. unfold has_current_word in *.
  destruct (apply_op_step _ _ _ Ho)
    as [(Hi & _ & Hl & He) | (e & ch & -> & Hlt & Hn & Hi & _ & Hcase)].
  - intros Hn'. rewrite Hi, Hl. apply Hc.
    destruct He as [He | [He _]]; congruence.
  - destruct Hcase as [[[t Ht] _] | [(_ & Hws & Hlt') | (_ & Hws & _)]].
    + congruence.
    + intros _. now rewrite Hws.
    + intros _. rewrite Hws, length_app, length_map, Hi.
      simpl in Hb. rewrite Hb. lia.
Qed.

Lemma handle_key_total (e : Env) (ch : Z) (s : TypingSession) :
  has_current_word s → ∃ s', handle_key e ch s = Some s'.
Proof.
  intros Hc. destruct (is_finished s) eqn:Hf.
  - exists s. now apply handle_key_finished.
  - rewrite (handle_key_unfold _ _ _ Hf). cbn zeta.
    destruct (start_clock_frame e s) as (_ & Hws & Hix & _).
    apply is_finished_false in Hf. specialize (Hc Hf).
    apply lookup_lt_is_Some_2 in Hc as [w Hw].
    assert (Hw1 : current_word (start_clock e s) = Some w)
      by (unfold current_word; rewrite Hws, Hix; exact Hw).
    destruct (is_backspace ch).
    { rewrite Hw1. cbn [mbind option_bind]. destruct (typed w); eauto. }
    destruct (is_submit ch).
    { destruct (submit_word_counters e _ _ Hw1) as (s' & Hs' & _). eauto. }
    destruct (is_printable ch); [|eauto].
    rewrite Hw1. cbn [mbind option_bind]. eauto.
Qed.

Lemma run_total (ops : list op) :
  Forall batch_ok ops →
  ∀ s, has_current_word s → ∃ s', run ops s = Some s' ∧ has_current_word s'.
Proof.
  induction 1 as [|o ops Hb _ IH]; intros s Hc; simpl.
  - eauto.
  - assert (Ho : ∃ s1, apply_op o s = Some s1).
    { destruct o as [e ch | e | h w]; cbn [apply_op]; eauto using handle_key_total. }
    destruct Ho as [s1 Ho]. rewrite Ho. cbn [mbind option_bind].
    apply IH. eapply apply_op_has_current_word; eauto.
Qed.

(** ** C6: the index only grows and stays inside the word stream *)

Lemma init_has_current_word (c : Config.t) (e0 : Env) :
  drawn e0 ≠ [] → has_current_word (init c e0).
Proof.
  intros Hd _. unfold init. simpl. rewrite length_map.
  destruct (drawn e0); [contradiction | simpl; lia].
Qed.

Lemma apply_op_index_bound (s0 : TypingSession) (o : op) (s s' : TypingSession) :
  index s0 ≤ index s ∧ index s ≤ length (words s) →
  apply_op o s = Some s' →
  index s0 ≤ index s' ∧ index s' ≤ length (words s').
Proof.
  intros [H0 Hb] Ho.
  destruct (apply_op_step _ _ _ Ho)
    as [(Hi & _ & Hl & _) | (e & ch & _ & Hlt & _ & Hi & _ & Hcase)].
  - rewrite Hi, Hl. auto.
  - rewrite Hi. split; [lia|].
    destruct Hcase as [[_ ->] | [(_ & -> & _) | (_ & -> & _)]];
      rewrite ?length_app; lia.
Qed.

(** C6. Along every sequence of keys, ticks and layout passes [index] never
    decreases and stays at most [len(words)]; this holds in particular right
    after a submission that reached the end of the stream and extended it by
    a batch of 100 words (the index is then strictly inside the stream); and
    from a fresh session over a non-empty draw, with every batch of the word
    source 100 words long, every such sequence runs to the end without an
    [IndexError]. *)
Theorem index_monotone_and_bounded :
  (∀ ops s s',
      index s ≤ length (words s) → run ops s = Some s' →
      index s ≤ index s' ∧ index s' ≤ length (words s'))
  ∧ (∀ e ch s s',
        is_finished s = false → is_submit ch = true →
        handle_key e ch s = Some s' →
        is_finished s' = false → length (words s) ≤ index s' →
        length (more e) = 100 →
        words s' = words s ++ map new_word (more e) ∧
        length (words s') = length (words s) + 100 ∧
        index s' = index s + 1 ∧
        index s' < length (words s'))
  ∧ (∀ c e0 ops,
        drawn e0 ≠ [] → Forall batch_ok ops →
        ∃ s', run ops (init c e0) = Some s' ∧
              index s' ≤ length (words s')).
Proof.
  assert (Hrun : ∀ ops s s',
             index s ≤ length (words s) → run ops s = Some s' →
             index s ≤ index s' ∧ index s' ≤ length (words s')).
  { intros ops s s' Hb Hr.
    apply (run_invariant_all
             (λ x, index s ≤ index x ∧ index x ≤ length (words x))
             (apply_op_index_bound s) ops s s'); auto. }
  split; [exact Hrun | split].
  - intros e ch s s' Hf Hsub Hk Hf' Hge Hlen.
    rewrite (handle_key_unfold _ _ _ Hf) in Hk. cbn zeta in Hk.
    rewrite (submit_not_backspace _ Hsub), Hsub in Hk.
    destruct (start_clock_frame e s) as (_ & Hws & Hix & _ & He & _).
    apply is_finished_false in Hf, Hf'.
    apply submit_word_step in Hk; [|congruence].
    destruct Hk as (Hlt & _ & Hi & _ & Hcase). rewrite Hws, Hix in *.
    destruct Hcase as [[[t Ht] _] | [(_ & _ & Hlt') | (_ & Hw' & _)]].
    + congruence.
    + lia.
    + rewrite Hw', length_app, length_map, Hlen. repeat split; auto; lia.
  - intros c e0 ops Hd Hops.
    destruct (run_total ops Hops (init c e0) (init_has_current_word c e0 Hd))
      as (s' & Hr & _).
    exists s'. split; [exact Hr|].
    apply (Hrun ops (init c e0) s'); [simpl; lia | exact Hr].
Qed.

Lemma index_monotone_and_bounded_witness :
  ∃ s', run [Key batch_env 99; Key batch_env 32; Tick batch_env; Layout 5 40;
             Key batch_env 8; Key batch_env 32]
            (init cat_cfg batch_env) = Some s' ∧
        index s' ≤ length (words s').
Proof.
  apply (proj2 (proj2 index_monotone_and_bounded) cat_cfg batch_env).
  - discriminate.
  - repeat constructor.
Defined.

(** ** C10: the index is the number of completed words *)

Lemma apply_op_index_completed (o : op) (s s' : TypingSession) :
  index s = completed_words s → apply_op o s = Some s' →
  index s' = completed_words s'.
Proof.
  intros He Ho.
  destruct (apply_op_step _ _ _ Ho)
    as [(Hi & Hc & _) | (e & ch & _ & _ & _ & Hi & Hc & _)]; lia.
Qed.

(** C10. In every state reached from a freshly constructed session by keys,
    ticks and layout passes, [index = completed_words]. *)
Theorem index_equals_completed_words (c : Config.t) (e0 : Env) (ops : list op)
        (s' : TypingSession) :
  run ops (init c e0) = Some s' → index s' = completed_words s'.
Proof.
  apply (run_invariant_all (λ x, index x = completed_words x)
           apply_op_index_completed).
  reflexivity.
Qed.

Lemma index_equals_completed_words_witness :
  ∃ s', run [Key batch_env 99; Key batch_env 32; Tick batch_env; Layout 5 40;
             Key batch_env 8; Key batch_env 32]
            (init cat_cfg batch_env) = Some s' ∧
        index s' = 2 ∧ completed_words s' = 2.
Proof.
  destruct (run [Key batch_env 99; Key batch_env 32; Tick batch_env; Layout 5 40;
                 Key batch_env 8; Key batch_env 32]
                (init cat_cfg batch_env)) as [s'|] eqn:E.
  - exists s'. split; [reflexivity|].
    pose proof (index_equals_completed_words _ _ _ _ E) as H.
    assert (Hc : completed_words s' = 2).
    { vm_compute in E. injection E as <-. reflexivity. }
    split; [rewrite H|]; exact Hc.
  - vm_compute in E. discriminate E.
Defined.

(** ** Layout *)

Section LayoutFacts.
Variable s : TypingSession.
Variables height width : Z.

Local Abbreviation loop := (layout_loop s height width).
Local Abbreviation lay := (layout s height width).
Local Abbreviation ok := (fits height).

(** Past the current word the loop no longer touches [current_line]. *)
Lemma layout_loop_past_index (ws : list WordState) :
  ∀ idx y x0 ps cl,
    index s < idx → snd (loop ws idx y x0 ps cl) = cl.
Proof.
  induction ws as [|wd rest IH]; intros idx y x0 ps cl Hlt; cbn [layout_loop].
  - reflexivity.
  - destruct (negb _); [reflexivity|]. cbv zeta.
    destruct (_ && _); [reflexivity|].
    rewrite IH by lia.
    destruct (Nat.eqb_spec idx (index s)); [lia | reflexivity].
Qed.

(** Whatever [current_line] the loop returns is either the one it was
    given or the row of a position it has recorded for the current word. *)
Lemma layout_loop_current_line (ws : list WordState) :
  ∀ idx y x0 ps cl ps' cl',
    (0 <= y)%Z →
    loop ws idx y x0 ps cl = (ps', cl') →
    (∃ extra, ps' = ps ++ extra) ∧
    (cl' = cl ∨
     ∃ y' x', cl' = Some y' ∧ (index s, y', x') ∈ ps' ∧ (0 <= y' < height)%Z).
Proof.
  induction ws as [|wd rest IH]; intros idx y x0 ps cl ps' cl' Hy; cbn [layout_loop].
  - intros [= <- <-]. split; [exists []; now rewrite app_nil_r | now left].
  - destruct (Z.ltb_spec y height) as [Hlt|Hge]; cbn [negb];
      [|intros [= <- <-]; split; [exists []; now rewrite app_nil_r | now left]].
    cbv zeta.
    set (w := Z.of_nat (String.length (target wd))).
    set (need := if (0 <? x0)%Z then 1%Z else 0%Z).
    destruct (width <? x0 + need + w)%Z eqn:Hwrap; cbn [andb].
    + destruct (Z.leb_spec height (y + 1)) as [Hfull|Hroom];
        [intros [= <- <-]; split; [exists []; now rewrite app_nil_r | now left]|].
      intros Hl. apply IH in Hl as [[extra ->] Hcl]; [|lia].
      split; [exists ([(idx, (y + 1)%Z, 0%Z)] ++ extra); now rewrite app_assoc|].
      destruct (Nat.eqb_spec idx (index s)) as [->|Hne]; [|exact Hcl].
      destruct Hcl as [-> | Hcl]; [|now right].
      right. exists (y + 1)%Z, 0%Z. split; [reflexivity|]. split; [|lia].
      rewrite !elem_of_app, list_elem_of_singleton. auto.
    + intros Hl. apply IH in Hl as [[extra ->] Hcl]; [|lia].
      set (x2 := if (need =? 0)%Z then x0 else (x0 + 1)%Z) in *.
      split; [exists ([(idx, y, x2)] ++ extra); now rewrite app_assoc|].
      destruct (Nat.eqb_spec idx (index s)) as [->|Hne]; [|exact Hcl].
      destruct Hcl as [-> | Hcl]; [|now right].
      right. exists y, x2. split; [reflexivity|]. split; [|lia].
      rewrite !elem_of_app, list_elem_of_singleton. auto.
Qed.



Lemma scroll_search_S (n v : nat) :
  scroll_search s height width (S n) v =
  if ok (snd (lay v)) then v else scroll_search s height width n (v + 1).
Proof. reflexivity. Qed.

(** The bounded search: it stops at the first candidate that fits ... *)
Lemma scroll_search_finds (n : nat) :
  ∀ v k,
    k < n → ok (snd (lay (v + k))) = true →
    v ≤ scroll_search s height width n v ≤ v + k ∧
    ok (snd (lay (scroll_search s height width n v))) = true.
Proof.
  induction n as [|n IH]; intros v k Hk Hfit; [lia|]. rewrite scroll_search_S.
  destruct (ok (snd (lay v))) eqn:Hv; cbv iota.
  - split; [lia | exact Hv].
  - destruct k as [|k]; [rewrite Nat.add_0_r in Hfit; congruence|].
    destruct (IH (v + 1) k) as [Hr Hf]; [lia | | split; [lia | exact Hf]].
    now replace (v + 1 + k) with (v + S k) by lia.
Qed.

(** ... and after [n] candidates that do not fit it gives up, [n] further. *)
Lemma scroll_search_exhausted (n : nat) :
  ∀ v,
    (∀ k, k < n → ok (snd (lay (v + k))) = false) →
    scroll_search s height width n v = v + n.
Proof.
  induction n as [|n IH]; intros v Hall; [unfold scroll_search; lia|].
  rewrite scroll_search_S.
  pose proof (Hall 0) as H0. rewrite Nat.add_0_r in H0. rewrite H0 by lia.
  rewrite IH; [lia|].
  intros k Hk. replace (v + 1 + k) with (v + S k) by lia. apply Hall. lia.
Qed.
End LayoutFacts.

(** The search as a whole: where it stops, what it skipped, what it found. *)
Lemma scroll_search_first (s : TypingSession) (height width : Z) (n : nat) :
  ∀ v,
    let r := scroll_search s height width n v in
    v ≤ r ≤ v + n ∧
    (∀ u, v ≤ u < r → fits height (snd (layout s height width u)) = false) ∧
    (r < v + n → fits height (snd (layout s height width r)) = true).
Proof.
  induction n as [|n IH]; intros v; cbv zeta.
  - unfold scroll_search. repeat split; try lia.
  - rewrite scroll_search_S.
    destruct (fits height (snd (layout s height width v))) eqn:Hv.
    + repeat split; try lia. intros _. exact Hv.
    + destruct (IH (v + 1)) as (Hr & Hbefore & Hat). cbv zeta in Hr, Hbefore, Hat.
      repeat split; try lia.
      * intros u Hu. destruct (decide (u = v)) as [->|Hne]; [exact Hv|].
        apply Hbefore. lia.
      * intros Hlt. apply Hat. lia.
Qed.

Lemma draw_words_area_unfold (s : TypingSession) (height width : Z) :
  draw_words_area s height width =
  let v := scroll_search s height width 1000 (view_start s) in
  (set_view_start v s, fst (layout s height width v)).
Proof. reflexivity. Qed.

(** ** C7: the scroll search keeps the current word on screen *)





(** ** C8: a search that finds nothing *)

Lemma search_failsb_spec (s : TypingSession) (height width : Z) :
  search_failsb s height width = true → search_fails s height width.
Proof.
  unfold search_failsb, search_fails. rewrite forallb_forall. intros H k Hk.
  apply negb_true_iff. apply H. apply in_seq. lia.
Qed.

(** C8, as the code has it. When none of the 1000 candidates fits, the pass
    neither fails nor loops: it returns after the 1000th candidate, stores
    [view_start + 1000], and draws the layout from there like any other
    frame; nothing tells a failed search from a successful one. *)
Theorem failed_search_goes_unreported (s : TypingSession) (height width : Z) :
  search_fails s height width →
  draw_words_area s height width =
  (set_view_start (view_start s + 1000) s,
   fst (layout s height width (view_start s + 1000))).
Proof.
  intros Hfail. rewrite draw_words_area_unfold. cbv zeta.
  now rewrite (scroll_search_exhausted s height width 1000 (view_start s) Hfail).
Qed.

Lemma far_session_search_fails : search_fails far_session 1 1.
Proof. apply search_failsb_spec. vm_compute. reflexivity. Qed.

Lemma failed_search_goes_unreported_witness :
  draw_words_area far_session 1 1 =
  (set_view_start 1000 far_session, fst (layout far_session 1 1 1000)).
Proof.
  exact (failed_search_goes_unreported far_session 1 1 far_session_search_fails).
Defined.

(** The claim as stated fails on [far_session]: the search finds nothing,
    yet the frame is not skipped; word 1000 is drawn at the top left, the
    current word is not drawn, and [view_start] has moved to 1000. *)
Lemma failed_search_still_draws :
  search_fails far_session 1 1 ∧
  ¬ typing_area_skipped (draw_words_area far_session 1 1) ∧
  draw_words_area far_session 1 1
  = (set_view_start 1000 far_session, [(1000, 0%Z, 0%Z)]).
Proof.
  assert (Hdraw : draw_words_area far_session 1 1
                  = (set_view_start 1000 far_session, [(1000, 0%Z, 0%Z)]))
    by (vm_compute; reflexivity).
  split; [exact far_session_search_fails|]. split; [|exact Hdraw].
  unfold typing_area_skipped. rewrite Hdraw. discriminate.
Qed.

(** ** C9: metrics *)

(** C9, as the code has it. For a freshly constructed session [elapsed] is
    [0], [accuracy] is the double [100.0] and [wpm] is [0]; and for any
    session [accuracy] is [100.0] when [correct_chars + incorrect_chars = 0]
    and otherwise the double [(correct_chars / total) * 100.0], quotient
    first, with [total = correct_chars + incorrect_chars]: in exact
    arithmetic that is [100 * correct_chars / total]. *)
Theorem metrics_of_fresh_session_and_accuracy :
  (∃ q, float_value hundred = Some q ∧ (q == 100)%Q)
  ∧ (∀ c e0 e,
      elapsed e (init c e0) = 0%Q ∧
      accuracy_double (init c e0) = hundred ∧
      accuracy (init c e0) = 100%Q ∧
      (wpm e (init c e0) == 0)%Q)
  ∧ (∀ s, correct_chars s + incorrect_chars s = 0 →
          accuracy_double s = hundred ∧ accuracy s = 100%Q)
  ∧ (∀ s, correct_chars s + incorrect_chars s ≠ 0 →
          accuracy_double s =
            PrimFloat.mul
              (PrimFloat.div (float_of_nat (correct_chars s))
                             (float_of_nat (correct_chars s + incorrect_chars s)))
              hundred
          ∧ (accuracy s ==
             100 * inject_Z (Z.of_nat (correct_chars s))
             / inject_Z (Z.of_nat (correct_chars s + incorrect_chars s)))%Q).
Proof.
  split; [|split; [|split]].
  - eexists. split; [vm_compute; reflexivity | reflexivity].
  - intros c e0 e. split; [reflexivity|]. split; [reflexivity|].
    split; [reflexivity|].
    unfold wpm. cbn [init correct_chars Z.of_nat inject_Z]. unfold Qdiv. ring.
  - intros s H. unfold accuracy_double, accuracy. now rewrite H.
  - intros s H. unfold accuracy_double, accuracy.
    destruct (Nat.eqb_spec (correct_chars s + incorrect_chars s) 0) as [?|_];
      [contradiction|].
    split; [reflexivity|]. unfold Qdiv. ring.
Qed.

Lemma metrics_of_fresh_session_and_accuracy_witness :
  (accuracy_double done_session
   = PrimFloat.mul (PrimFloat.div (float_of_nat 7) (float_of_nat 9)) hundred
   ∧ (accuracy done_session == 100 * inject_Z 7 / inject_Z 9)%Q)
  ∧ (accuracy_double (init pair_cfg fresh_env) = hundred
     ∧ accuracy (init pair_cfg fresh_env) = 100%Q).
Proof.
  split.
  - apply (proj2 (proj2 (proj2 metrics_of_fresh_session_and_accuracy)) done_session).
    discriminate.
  - apply (proj1 (proj2 (proj2 metrics_of_fresh_session_and_accuracy))). reflexivity.
Defined.

(** C9 as first stated gives [100 * correct_chars / total] for the result.
    With 7 characters right and 2 wrong the code returns the double
    [(7 / 9) * 100.0], which is neither the rational [700 / 9] nor the
    double Python gives for [100 * 7 / 9]: it lies one place above. *)
Lemma accuracy_is_not_the_product_formula :
  correct_chars done_session = 7 ∧ incorrect_chars done_session = 2 ∧
  (∃ q, float_value (accuracy_double done_session) = Some q ∧
        ¬ (q == 100 * inject_Z 7 / inject_Z 9)%Q) ∧
  PrimFloat.eqb (accuracy_double done_session) (percent_of_product 7 9) = false ∧
  PrimFloat.ltb (percent_of_product 7 9) (accuracy_double done_session) = true ∧
  PrimFloat.eqb (PrimFloat.next_up (percent_of_product 7 9))
                (accuracy_double done_session) = true ∧
  accuracy_double done_session ≠ percent_of_product 7 9.
Proof.
  assert (Hne : PrimFloat.eqb (accuracy_double done_session) (percent_of_product 7 9)
                = false) by (vm_compute; reflexivity).
  split; [reflexivity|]. split; [reflexivity|]. split; [|split; [|split; [|split]]].
  - eexists. split; [vm_compute; reflexivity|]. vm_compute. discriminate.
  - exact Hne.
  - vm_compute. reflexivity.
  - vm_compute. reflexivity.
  - intros Heq. rewrite Heq in Hne. vm_compute in Hne. discriminate.
Qed.

(** * Further properties of the module *)

(** ** [WordState]: the correct prefix and the extra characters *)

Lemma prefix_loop_shift (t : string) :
  ∀ g n, prefix_loop t g n = n + prefix_loop t g 0.
Proof.
  induction t as [|a t IH]; intros [|b g] n; cbn [prefix_loop]; try lia.
  destruct (Ascii.eqb a b); [|lia].
  rewrite (IH g (S n)), (IH g 1). lia.
Qed.

Lemma prefix_loop_common (t : string) :
  ∀ g,
    let p := prefix_loop t g 0 in
    p ≤ String.length t ∧ p ≤ String.length g ∧
    (∀ i, i < p → String.get i t = String.get i g) ∧
    (p < String.length t → p < String.length g →
     String.get p t ≠ String.get p g).
Proof.
  induction t as [|a t IH]; intros [|b g]; cbn [prefix_loop String.length];
    try (repeat split; intros; lia).
  destruct (Ascii.eqb_spec a b) as [->|Hne].
  - rewrite prefix_loop_shift. destruct (IH g) as (H1 & H2 & H3 & H4).
    cbn zeta. repeat split; try lia.
    + intros [|i] Hi; [reflexivity|]. cbn [String.get]. apply H3. lia.
    + intros Ht Hg. cbn [String.get]. change (1 + ?n) with (S n).
      cbn [String.get]. apply H4; lia.
  - cbn zeta. repeat split; try lia. intros _ _. cbn [String.get]. congruence.
Qed.

Lemma prefix_loop_refl (g : string) : prefix_loop g g 0 = String.length g.
Proof.
  induction g as [|a g IH]; [reflexivity|]. cbn [prefix_loop String.length].
  rewrite Ascii.eqb_refl, prefix_loop_shift, IH. reflexivity.
Qed.

(** Two strings of one length that agree at every position are equal. *)
Lemma string_ext (t : string) :
  ∀ g,
    String.length t = String.length g →
    (∀ i, i < String.length t → String.get i t = String.get i g) →
    t = g.
Proof.
  induction t as [|a t IH]; intros [|b g] Hlen Hget; try discriminate; [reflexivity|].
  cbn [String.length] in *.
  pose proof (Hget 0 ltac:(lia)) as H0. cbn [String.get] in H0.
  injection H0 as ->. f_equal. apply IH; [lia|].
  intros i Hi. apply (Hget (S i)). lia.
Qed.

(** X1. [correct_prefix_length] is the length of the longest common prefix of
    [typed] and [target]: the two agree below it, and differ at it unless
    one of them ends there. *)
Theorem correct_prefix_length_longest (w : WordState) :
  let p := correct_prefix_length w in
  p ≤ String.length (typed w) ∧ p ≤ String.length (target w) ∧
  (∀ i, i < p → String.get i (typed w) = String.get i (target w)) ∧
  (p < String.length (typed w) → p < String.length (target w) →
   String.get p (typed w) ≠ String.get p (target w)).
Proof. apply prefix_loop_common. Qed.

Lemma correct_prefix_length_longest_witness :
  correct_prefix_length (mkWordState "hello" "help!") = 3 ∧
  String.get 3 "help!" ≠ String.get 3 "hello".
Proof.
  split; [reflexivity|].
  apply (proj2 (proj2 (proj2
           (correct_prefix_length_longest (mkWordState "hello" "help!")))));
    vm_compute; lia.
Defined.

(** X2. A word is typed exactly right iff its correct prefix covers the whole
    target and it has no extra characters. *)
Theorem typed_exactly_iff (w : WordState) :
  typed w = target w ↔
  correct_prefix_length w = String.length (target w) ∧ extra_count w = 0.
Proof.
  unfold correct_prefix_length, extra_count. split.
  - intros ->. rewrite prefix_loop_refl. split; lia.
  - intros [Hp He].
    destruct (prefix_loop_common (typed w) (target w)) as (H1 & _ & H3 & _).
    cbn zeta in *. rewrite Hp in *.
    apply string_ext; [lia|]. intros i Hi. apply H3. lia.
Qed.

Lemma typed_exactly_iff_witness :
  typed (mkWordState "cat" "cat") = target (mkWordState "cat" "cat").
Proof.
  apply (proj2 (typed_exactly_iff (mkWordState "cat" "cat"))).
  split; reflexivity.
Defined.

(** ** Submission: every position is judged once *)

Lemma filter_complement_length {A} (P Q : A → Prop)
      `{∀ x, Decision (P x)} `{∀ x, Decision (Q x)} (l : list A) :
  (∀ x, Q x ↔ ¬ P x) →
  length (filter P l) + length (filter Q l) = length l.
Proof.
  intros HPQ. induction l as [|x l IH]; [reflexivity|].
  rewrite !filter_cons. destruct (decide (P x)) as [HP|HP].
  - rewrite decide_False by (rewrite HPQ; tauto). simpl. lia.
  - rewrite decide_True by (rewrite HPQ; tauto). simpl. lia.
Qed.

Lemma filter_none {A} (P : A → Prop) `{∀ x, Decision (P x)} (l : list A) :
  (∀ x, x ∈ l → ¬ P x) → filter P l = [].
Proof.
  induction l as [|x l IH]; intros Hall; [reflexivity|].
  rewrite filter_cons, decide_False by (apply Hall; left).
  apply IH. intros y Hy. apply Hall. now right.
Qed.

Lemma get_in_range (t : string) :
  ∀ i, i < String.length t → is_Some (String.get i t).
Proof.
  induction t as [|a t IH]; intros i Hi; cbn [String.length] in Hi; [lia|].
  destruct i; cbn [String.get]; [eauto | apply IH; lia].
Qed.

Lemma get_out_of_range (t : string) :
  ∀ i, String.length t ≤ i → String.get i t = None.
Proof.
  induction t as [|a t IH]; intros i Hi; cbn [String.length] in Hi; [now destruct i|].
  destruct i; [lia|]. cbn [String.get]. apply IH. lia.
Qed.

Lemma judged_positions_total (t g : string) :
  length (correct_positions t g) + length (incorrect_positions t g)
  = String.length t.
Proof.
  unfold correct_positions, incorrect_positions.
  rewrite filter_complement_length; [apply length_seq|].
  intros i. split.
  - intros [Hne | Hge] [Hlt Heq]; [contradiction | lia].
  - intros Hn. destruct (decide (String.length g ≤ i)); [now right|].
    left. intros Heq. apply Hn. split; [lia | exact Heq].
Qed.

Lemma no_incorrect_positions_iff (t g : string) :
  incorrect_positions t g = [] ∧ String.length g - String.length t = 0 ↔ t = g.
Proof.
  unfold incorrect_positions. split.
  - intros [Hnil Hlen].
    assert (Hall : ∀ i, i < String.length t →
                        String.get i t = String.get i g ∧ i < String.length g).
    { intros i Hi.
      assert (Hin : i ∈ seq 0 (String.length t)) by (apply elem_of_seq; lia).
      destruct (decide (String.get i t ≠ String.get i g ∨ String.length g ≤ i))
        as [Hq|Hq].
      - exfalso. eapply (not_elem_of_nil i). rewrite <- Hnil.
        apply list_elem_of_filter. split; [exact Hq | exact Hin].
      - split; [|lia].
        destruct (decide (String.get i t = String.get i g)); tauto. }
    assert (String.length t ≤ String.length g).
    { destruct (String.length t) as [|n] eqn:E; [lia|].
      destruct (Hall n); lia. }
    apply string_ext; [lia|]. intros i Hi. now apply Hall.
  - intros ->. split; [|lia].
    apply filter_none. intros i Hi [Hne | Hge].
    + now apply Hne.
    + apply elem_of_seq in Hi. lia.
Qed.

Lemma handle_key_submit (e : Env) (ch : Z) (s : TypingSession) :
  is_finished s = false → is_submit ch = true →
  handle_key e ch s = _submit_word e (start_clock e s).
Proof.
  intros Hf Hsub. rewrite (handle_key_unfold _ _ _ Hf). cbn zeta.
  now rewrite (submit_not_backspace _ Hsub), Hsub.
Qed.

Lemma current_word_start_clock (e : Env) (s : TypingSession) :
  current_word (start_clock e s) = current_word s.
Proof.
  destruct (start_clock_frame e s) as (_ & Hws & Hix & _).
  unfold current_word. now rewrite Hws, Hix.
Qed.

(** X3. A submission judges every position of the longer of the two strings
    exactly once: [correct_chars + incorrect_chars] grows by
    [max(len(typed), len(target))]; and it adds nothing to [incorrect_chars]
    exactly when the word was typed as the target has it. *)
Theorem submission_judges_longer_string
        (e : Env) (ch : Z) (s : TypingSession) (w : WordState) :
  is_finished s = false →
  is_submit ch = true →
  current_word s = Some w →
  ∃ s', handle_key e ch s = Some s' ∧
    correct_chars s' + incorrect_chars s' =
      correct_chars s + incorrect_chars s
      + Nat.max (String.length (typed w)) (String.length (target w)) ∧
    (incorrect_chars s' = incorrect_chars s ↔ typed w = target w).
Proof.
  intros Hf Hsub Hw. rewrite (handle_key_submit _ _ _ Hf Hsub).
  destruct (start_clock_frame e s) as (_ & _ & _ & _ & _ & _ & Hcc & Hic & _).
  rewrite <- (current_word_start_clock e s) in Hw.
  destruct (submit_word_counters e _ _ Hw) as (s' & Hs' & Hc & Hi & _ & _).
  exists s'. split; [exact Hs'|]. rewrite Hcc in Hc. rewrite Hic in Hi.
  pose proof (judged_positions_total (typed w) (target w)) as Htot.
  split; [lia|].
  rewrite <- no_incorrect_positions_iff. rewrite Hi. split.
  - intros H. split; [|lia].
    destruct (incorrect_positions (typed w) (target w)); [reflexivity|].
    simpl in H. lia.
  - intros [-> ->]. simpl. lia.
Qed.

Lemma submission_judges_longer_string_witness :
  ∃ s', handle_key quiet_env 32 cat_session = Some s' ∧
        correct_chars s' + incorrect_chars s' = 3.
Proof.
  destruct (submission_judges_longer_string quiet_env 32 cat_session
              (mkWordState "cat" "cot") eq_refl eq_refl eq_refl)
    as (s' & Hs' & Htot & _).
  exists s'. split; [exact Hs' | exact Htot].
Defined.

(** ** Editing keys *)

Lemma types_char_spec (ch : Z) :
  types_char ch = true ↔
  is_printable ch = true ∧ is_submit ch = false ∧ is_backspace ch = false.
Proof.
  unfold types_char, is_printable, is_submit, is_backspace, KEY_BACKSPACE.
  rewrite !andb_true_iff, !orb_false_iff, !Z.leb_le, !Z.eqb_neq. lia.
Qed.

Lemma backspace_not_submit (ch : Z) : is_backspace ch = true → is_submit ch = false.
Proof.
  intros Hb. destruct (is_submit ch) eqn:Hs; [|reflexivity].
  apply submit_not_backspace in Hs. congruence.
Qed.

Lemma start_clock_total_keystrokes (e : Env) (s : TypingSession) :
  total_keystrokes (start_clock e s) = total_keystrokes s.
Proof. now destruct (start_clock_frame e s) as (_ & _ & _ & _ & _ & -> & _). Qed.

Lemma handle_key_typing (e : Env) (ch : Z) (s : TypingSession) (w : WordState) :
  is_finished s = false → types_char ch = true → current_word s = Some w →
  handle_key e ch s =
  Some (set_total_keystrokes (total_keystrokes s + 1)
          (set_words (<[index s := set_typed (push_char (typed w) (chr ch)) w]> (words s))
                     (start_clock e s))).
Proof.
  intros Hf Ht Hw. apply types_char_spec in Ht as (Hp & Hs & Hb).
  rewrite (handle_key_unfold _ _ _ Hf). cbn zeta. rewrite Hb, Hs, Hp.
  rewrite current_word_start_clock, Hw. cbn [mbind option_bind].
  destruct (start_clock_frame e s) as (_ & -> & -> & _ & _ & -> & _).
  reflexivity.
Qed.

Lemma handle_key_backspace (e : Env) (ch : Z) (s : TypingSession) (w : WordState) :
  is_finished s = false → is_backspace ch = true → current_word s = Some w →
  handle_key e ch s =
  Some (if String.eqb (typed w) "" then start_clock e s
        else set_total_keystrokes (total_keystrokes s + 1)
               (set_words (<[index s := set_typed (drop_last (typed w)) w]> (words s))
                          (start_clock e s))).
Proof.
  intros Hf Hb Hw.
  rewrite (handle_key_unfold _ _ _ Hf). cbn zeta. rewrite Hb.
  rewrite current_word_start_clock, Hw. cbn [mbind option_bind].
  destruct (start_clock_frame e s) as (_ & -> & -> & _ & _ & -> & _).
  now destruct (typed w).
Qed.

Lemma handle_key_edited (e : Env) (ch : Z) (s s' : TypingSession) :
  is_finished s = false → is_submit ch = false →
  handle_key e ch s = Some s' → edited e ch s s'.
Proof.
  intros Hf Hs. rewrite (handle_key_unfold _ _ _ Hf). cbn zeta. rewrite Hs.
  rewrite current_word_start_clock.
  destruct (start_clock_frame e s) as (_ & Hws & Hix & _ & _ & Htk & _).
  rewrite Hws, Hix, Htk. unfold edited.
  destruct (is_backspace ch) eqn:Hb.
  - destruct (current_word s) as [w|]; [|discriminate]. cbn [mbind option_bind].
    destruct (typed w) eqn:Ht; intros [= <-]; [now left|].
    right. exists w, (drop_last (typed w)). rewrite Ht. auto.
  - destruct (is_printable ch) eqn:Hp; [|intros [= <-]; now left].
    destruct (current_word s) as [w|]; [|discriminate]. cbn [mbind option_bind].
    intros [= <-]. right. exists w, (push_char (typed w) (chr ch)).
    split; [reflexivity|]. split; [|reflexivity].
    right. split; [|reflexivity]. apply types_char_spec. auto.
Qed.

(** X4. A key that is not a submit key touches nothing but the clock start, the
    keystroke counter and the [typed] string of the current word: the
    index, the judged counters, the targets, every other word and
    [ended_at] stay as they are. *)
Theorem editing_key_frame (e : Env) (ch : Z) (s s' : TypingSession) :
  is_finished s = false →
  is_submit ch = false →
  handle_key e ch s = Some s' →
  cfg s' = cfg s ∧ index s' = index s ∧ view_start s' = view_start s ∧
  ended_at s' = None ∧
  correct_chars s' = correct_chars s ∧ incorrect_chars s' = incorrect_chars s ∧
  completed_words s' = completed_words s ∧
  map target (words s') = map target (words s) ∧
  (∀ i, i ≠ index s → words s' !! i = words s !! i) ∧
  total_keystrokes s ≤ total_keystrokes s' ≤ total_keystrokes s + 1.
Proof.
  intros Hf Hs Hk. apply is_finished_false in Hf as Hn.
  destruct (start_clock_frame e s)
    as (Hc & Hws & Hix & Hv & He & Htk & Hcc & Hic & Hcw).
  destruct (handle_key_edited _ _ _ _ Hf Hs Hk) as [-> | (w & t' & Hw & _ & ->)].
  - rewrite Hc, Hws, Hix, Hv, He, Htk, Hcc, Hic, Hcw. repeat split; auto; lia.
  - cbn [set_total_keystrokes set_words cfg index view_start ended_at correct_chars
         incorrect_chars completed_words words total_keystrokes].
    rewrite Hc, Hix, Hv, He, Hcc, Hic, Hcw. repeat split; auto; try lia.
    + apply list_eq. intros i. rewrite !list_lookup_fmap.
      destruct (decide (i = index s)) as [->|Hne].
      * unfold current_word in Hw. rewrite Hw.
        rewrite list_lookup_insert_eq by (eapply lookup_lt_Some; eauto).
        reflexivity.
      * now rewrite list_lookup_insert_ne by congruence.
    + intros i Hne. now rewrite list_lookup_insert_ne by congruence.
Qed.

Lemma editing_key_frame_witness :
  ∃ s', handle_key quiet_env 8 cat_session = Some s' ∧
        index s' = 0 ∧ words s' !! 1 = Some (mkWordState "dog" "").
Proof.
  destruct (handle_key quiet_env 8 cat_session) as [s'|] eqn:Hk;
    [|vm_compute in Hk; discriminate Hk].
  exists s'. split; [reflexivity|].
  destruct (editing_key_frame quiet_env 8 cat_session s' eq_refl eq_refl Hk)
    as (_ & Hi & _ & _ & _ & _ & _ & _ & Hw & _).
  split; [exact Hi|]. rewrite (Hw 1); [reflexivity | discriminate].
Defined.

Lemma drop_last_push_char (t : string) (c : ascii) : drop_last (push_char t c) = t.
Proof.
  unfold push_char. induction t as [|a t IH]; [reflexivity|].
  rewrite append_cons. cbn [drop_last]. rewrite IH.
  destruct t; reflexivity.
Qed.

Lemma push_char_drop_last (t : string) :
  t ≠ EmptyString → ∃ c, push_char (drop_last t) c = t.
Proof.
  unfold push_char. induction t as [|a t IH]; [congruence|]. intros _.
  destruct t as [|b t].
  - exists a. reflexivity.
  - destruct IH as [c Hc]; [discriminate|]. exists c.
    change (drop_last (String a (String b t))) with (String a (drop_last (String b t))).
    rewrite append_cons. now rewrite Hc.
Qed.

Lemma length_push_char (t : string) (c : ascii) :
  String.length (push_char t c) = S (String.length t).
Proof. apply length_push_prefix. Qed.

(** X5. What the two kinds of editing key do to the current word.  A typing key
    (33..126) appends its character and counts one keystroke.  A backspace
    key removes the last character and counts one keystroke; on an empty
    [typed] it changes and counts nothing (it never reaches into the
    previous word). *)
Theorem typing_and_backspace (e : Env) (ch : Z) (s : TypingSession) (w : WordState) :
  is_finished s = false →
  current_word s = Some w →
  (types_char ch = true →
   ∃ s', handle_key e ch s = Some s' ∧
         current_word s' = Some (set_typed (push_char (typed w) (chr ch)) w) ∧
         total_keystrokes s' = total_keystrokes s + 1) ∧
  (is_backspace ch = true →
   ∃ s', handle_key e ch s = Some s' ∧
         current_word s' = Some (set_typed (drop_last (typed w)) w) ∧
         (typed w = "" → s' = start_clock e s) ∧
         (typed w ≠ "" →
          total_keystrokes s' = total_keystrokes s + 1 ∧
          ∃ c, typed w = push_char (drop_last (typed w)) c)).
Proof.
  intros Hf Hw. pose proof Hw as Hlt. apply lookup_lt_Some in Hlt. split.
  - intros Ht. rewrite (handle_key_typing _ _ _ _ Hf Ht Hw).
    eexists. split; [reflexivity|]. split; [|reflexivity].
    unfold current_word. simpl.
    destruct (start_clock_frame e s) as (_ & _ & -> & _).
    now apply list_lookup_insert_eq.
  - intros Hb. rewrite (handle_key_backspace _ _ _ _ Hf Hb Hw).
    eexists. split; [reflexivity|].
    destruct (String.eqb_spec (typed w) "") as [He|Hne].
    + split; [|split; [reflexivity | congruence]].
      rewrite current_word_start_clock, Hw, He. now destruct w; simpl in *; subst.
    + split; [|split; [congruence|]].
      * unfold current_word. simpl.
        destruct (start_clock_frame e s) as (_ & _ & -> & _).
        now apply list_lookup_insert_eq.
      * intros _. split; [reflexivity|].
        destruct (push_char_drop_last _ Hne) as [c Hc]. eauto.
Qed.

Lemma typing_and_backspace_witness :
  ∃ s', handle_key quiet_env 8 cat_session = Some s' ∧
        current_word s' = Some (mkWordState "cat" "co").
Proof.
  destruct (proj2 (typing_and_backspace quiet_env 8 cat_session
                     (mkWordState "cat" "cot") eq_refl eq_refl) eq_refl)
    as (s' & Hs' & Hw & _).
  exists s'. split; [exact Hs' | exact Hw].
Defined.

(** X6. Typing a character and erasing it again gives back the word list the
    session had; both keys are counted. *)
Theorem type_then_backspace (e1 e2 : Env) (ch bs : Z) (s : TypingSession) (w : WordState) :
  is_finished s = false →
  current_word s = Some w →
  types_char ch = true →
  is_backspace bs = true →
  ∃ s1 s2, handle_key e1 ch s = Some s1 ∧ handle_key e2 bs s1 = Some s2 ∧
           words s2 = words s ∧
           total_keystrokes s2 = total_keystrokes s + 2 ∧
           index s2 = index s ∧
           started_at s2 = started_at (start_clock e1 s).
Proof.
  intros Hf Hw Ht Hb. pose proof Hw as Hlt. apply lookup_lt_Some in Hlt.
  rewrite (handle_key_typing _ _ _ _ Hf Ht Hw).
  set (w1 := set_typed (push_char (typed w) (chr ch)) w).
  set (s1 := set_total_keystrokes _ _).
  destruct (start_clock_frame e1 s) as (_ & Hws & Hix & _ & He & _).
  assert (Hf1 : is_finished s1 = false).
  { apply is_finished_false. subst s1. simpl. rewrite He.
    now apply is_finished_false. }
  assert (Hw1 : current_word s1 = Some w1).
  { unfold current_word. subst s1. simpl. rewrite Hix.
    now apply list_lookup_insert_eq. }
  exists s1. eexists. split; [reflexivity|].
  rewrite (handle_key_backspace _ _ _ _ Hf1 Hb Hw1).
  assert (Hne : String.eqb (typed w1) "" = false).
  { apply String.eqb_neq. subst w1. simpl. intros H.
    pose proof (length_push_char (typed w) (chr ch)) as Hl.
    rewrite H in Hl. discriminate Hl. }
  rewrite Hne. split; [reflexivity|].
  assert (Hstart : start_clock e2 s1 = s1).
  { unfold start_clock. subst s1. simpl.
    destruct (start_clock_started e1 s) as [t ->]. reflexivity. }
  rewrite Hstart. subst s1 w1. simpl. rewrite Hix.
  rewrite drop_last_push_char.
  repeat split; try lia.
  rewrite list_insert_insert_eq. apply list_insert_id.
  unfold current_word in Hw. rewrite Hw. now destruct w.
Qed.

Lemma type_then_backspace_witness :
  ∃ s1 s2, handle_key quiet_env 120 cat_session = Some s1 ∧
           handle_key quiet_env 127 s1 = Some s2 ∧
           words s2 = words cat_session.
Proof.
  destruct (type_then_backspace quiet_env quiet_env 120 127 cat_session
              (mkWordState "cat" "cot") eq_refl eq_refl eq_refl eq_refl)
    as (s1 & s2 & H1 & H2 & Hw & _).
  exists s1, s2. auto.
Defined.

(** ** Metrics: ranges, and results that stay put *)

Lemma ratio_range (a b : Z) :
  (0 <= a <= b)%Z → (0 < b)%Z →
  (0 <= inject_Z a / inject_Z b)%Q ∧ (inject_Z a / inject_Z b <= 1)%Q.
Proof.
  intros [Ha Hab] Hb.
  assert (Hb' : (0 < inject_Z b)%Q) by (unfold Qlt; simpl; lia).
  split.
  - apply Qle_shift_div_l; [exact Hb'|]. rewrite Qmult_0_l.
    unfold Qle; simpl; lia.
  - apply Qle_shift_div_r; [exact Hb'|]. rewrite Qmult_1_l.
    unfold Qle; simpl; lia.
Qed.

Lemma ratio_one (a b : Z) :
  (0 < b)%Z → (inject_Z a / inject_Z b == 1)%Q ↔ a = b.
Proof.
  intros Hb.
  assert (Hb' : ¬ (inject_Z b == 0)%Q).
  { intros H. apply (inject_Z_injective b 0) in H. lia. }
  split.
  - intros H. apply inject_Z_injective.
    rewrite <- (Qmult_div_r (inject_Z a) (inject_Z b) Hb'), H. ring.
  - intros ->. unfold Qdiv. now apply Qmult_inv_r.
Qed.

(** X7. [accuracy()] is a percentage: between 0 and 100, and 100 exactly when no
    character has been judged incorrect. *)
Theorem accuracy_is_percentage (s : TypingSession) :
  (0 <= accuracy s)%Q ∧ (accuracy s <= 100)%Q ∧
  ((accuracy s == 100)%Q ↔ incorrect_chars s = 0).
Proof.
  unfold accuracy.
  destruct (Nat.eqb_spec (correct_chars s + incorrect_chars s) 0) as [H0|Hne].
  - split; [discriminate|]. split; [apply Qle_refl|].
    split; [lia | reflexivity].
  - set (a := Z.of_nat (correct_chars s)).
    set (b := Z.of_nat (correct_chars s + incorrect_chars s)).
    assert (Hab : (0 <= a <= b)%Z) by lia.
    assert (Hb : (0 < b)%Z) by lia.
    destruct (ratio_range a b Hab Hb) as [Hlo Hhi].
    split; [|split].
    + apply Qmult_le_0_compat; [exact Hlo | discriminate].
    + eapply Qle_trans;
        [apply Qmult_le_compat_r; [exact Hhi | discriminate]|].
      rewrite Qmult_1_l. apply Qle_refl.
    + transitivity (inject_Z a / inject_Z b == 1)%Q.
      * split; intros H.
        -- apply (Qmult_inj_r _ _ 100); [discriminate|]. rewrite H. ring.
        -- rewrite H. ring.
      * rewrite (ratio_one a b Hb). subst a b. lia.
Qed.

Lemma accuracy_is_percentage_witness :
  (accuracy done_session <= 100)%Q ∧ ¬ (accuracy done_session == 100)%Q.
Proof.
  destruct (accuracy_is_percentage done_session) as (_ & Hle & Hiff).
  split; [exact Hle|]. intros H. apply Hiff in H. discriminate H.
Defined.

Lemma elapsed_floor_positive (e : Env) (s : TypingSession) :
  (0 < Qmax (elapsed e s) (1 # 1000000000) / 60)%Q.
Proof.
  apply Qlt_shift_div_l; [reflexivity|]. rewrite Qmult_0_l.
  eapply Qlt_le_trans; [|apply Q.le_max_r]. reflexivity.
Qed.

(** X8. [wpm()] never divides by zero and is never negative; it is 0 exactly
    when no character has been judged correct. *)
Theorem wpm_nonnegative (e : Env) (s : TypingSession) :
  (0 <= wpm e s)%Q ∧ ((wpm e s == 0)%Q ↔ correct_chars s = 0).
Proof.
  unfold wpm. cbv zeta.
  pose proof (elapsed_floor_positive e s) as Hpos.
  set (d := (Qmax (elapsed e s) (1 # 1000000000) / 60)%Q) in *.
  set (a := Z.of_nat (correct_chars s)).
  assert (Hd : ¬ (d == 0)%Q).
  { intros H. rewrite H in Hpos. discriminate Hpos. }
  split.
  - apply Qle_shift_div_l; [exact Hpos|]. rewrite Qmult_0_l.
    apply Qle_shift_div_l; [reflexivity|]. rewrite Qmult_0_l.
    unfold Qle; simpl; lia.
  - split.
    + intros H.
      assert (H5 : (inject_Z a / 5 == 0)%Q).
      { rewrite <- (Qmult_div_r (inject_Z a / 5) d Hd), H. ring. }
      assert (Ha : (inject_Z a == 0)%Q).
      { rewrite <- (Qmult_div_r (inject_Z a) 5) by discriminate. rewrite H5. ring. }
      apply (inject_Z_injective a 0) in Ha. lia.
    + intros H. subst a. rewrite H. unfold Qdiv. simpl inject_Z. ring.
Qed.

Lemma wpm_nonnegative_witness :
  (0 <= wpm fresh_env done_session)%Q ∧ ¬ (wpm fresh_env done_session == 0)%Q.
Proof.
  destruct (wpm_nonnegative fresh_env done_session) as [Hle Hiff].
  split; [exact Hle|]. intros H. apply Hiff in H. discriminate H.
Defined.

(** Everything but [view_start] is fixed once the session is finished. *)
Lemma apply_op_finished (o : op) (s s' : TypingSession) :
  is_finished s = true → apply_op o s = Some s' →
  s' = set_view_start (view_start s') s.
Proof.
  intros Hf Ho.
  assert (Hid : s = set_view_start (view_start s) s) by (now destruct s).
  destruct o as [e ch | e | h w]; cbn [apply_op] in Ho.
  - rewrite handle_key_finished in Ho by exact Hf. injection Ho as <-. exact Hid.
  - rewrite tick_finished in Ho by exact Hf. injection Ho as <-. exact Hid.
  - injection Ho as <-. apply draw_words_area_frame.
Qed.

Lemma run_finished (ops : list op) :
  ∀ s s', is_finished s = true → run ops s = Some s' →
          s' = set_view_start (view_start s') s.
Proof.
  induction ops as [|o ops IH]; intros s s' Hf Hr; simpl in Hr.
  - injection Hr as <-. now destruct s.
  - destruct (apply_op o s) as [s1|] eqn:Ho; [|discriminate].
    cbn [mbind option_bind] in Hr.
    apply apply_op_finished in Ho; [|exact Hf].
    assert (Hf1 : is_finished s1 = true) by (rewrite Ho; exact Hf).
    rewrite (IH _ _ Hf1 Hr). rewrite Ho. reflexivity.
Qed.

(** X9. The results are final.  Once [ended_at] is set, no sequence of keys,
    ticks and frames changes the judged counters or the timestamps, and
    [elapsed()], [wpm()], [accuracy()] and [remaining_seconds()] no longer
    depend on the clock. *)
Theorem results_are_final (ops : list op) (s s' : TypingSession) (t : Q) :
  ended_at s = Some t →
  run ops s = Some s' →
  s' = set_view_start (view_start s') s ∧
  ∀ e e',
    elapsed e' s' = elapsed e s ∧ wpm e' s' = wpm e s ∧
    accuracy s' = accuracy s ∧
    remaining_seconds e' s' = remaining_seconds e s.
Proof.
  intros Ht Hr.
  assert (Hf : is_finished s = true) by (apply is_finished_true; eauto).
  pose proof (run_finished ops s s' Hf Hr) as Hs'. split; [exact Hs'|].
  intros e e'.
  assert (Hel : elapsed e' s' = elapsed e s).
  { rewrite Hs'. unfold elapsed. simpl. rewrite Ht. reflexivity. }
  split; [exact Hel|]. split; [|split].
  - unfold wpm. rewrite Hel. rewrite Hs'. reflexivity.
  - rewrite Hs'. reflexivity.
  - unfold remaining_seconds. rewrite Hel. rewrite Hs'. reflexivity.
Qed.

Lemma results_are_final_witness :
  ∃ s', run [Key fresh_env 32; Tick batch_env; Layout 5 40; Key batch_env 97]
            done_session = Some s' ∧
        wpm batch_env s' = wpm fresh_env done_session ∧
        accuracy s' = accuracy done_session.
Proof.
  destruct (run [Key fresh_env 32; Tick batch_env; Layout 5 40; Key batch_env 97]
                done_session) as [s'|] eqn:Hr;
    [|vm_compute in Hr; discriminate Hr].
  exists s'. split; [reflexivity|].
  destruct (results_are_final _ done_session s' 9%Q eq_refl Hr) as [_ H].
  destruct (H fresh_env batch_env) as (_ & Hw & Ha & _). auto.
Defined.

(** ** The countdown *)

Lemma int_of_float_floor (q : Q) : (0 <= q)%Q → int_of_float q = Qfloor q.
Proof.
  destruct q as [n d]. unfold Qle, int_of_float, Qfloor. simpl. intros H.
  apply Z.quot_div_nonneg; lia.
Qed.

Lemma le_floor_iff (z : Z) (q : Q) : (z <= Qfloor q)%Z ↔ (inject_Z z <= q)%Q.
Proof.
  split.
  - intros H. eapply Qle_trans; [|apply Qfloor_le].
    unfold Qle; simpl; lia.
  - intros H. rewrite <- (Qfloor_Z z). now apply Qfloor_resp_le.
Qed.

(** X10. [remaining_seconds()] is 0 outside time mode and otherwise stays within
    [0 .. max(0, cfg.seconds)]; it reads 0 exactly when the elapsed time has
    reached [cfg.seconds], which for a running session is exactly when
    [tick], at the same clock reading, ends the session. *)
Theorem countdown_matches_tick (e : Env) (s : TypingSession) :
  (0 <= remaining_seconds e s <= Z.max 0 (Config.seconds (cfg s)))%Z ∧
  (Config.mode (cfg s) ≠ "time" → remaining_seconds e s = 0%Z) ∧
  (Config.mode (cfg s) = "time" →
   (remaining_seconds e s = 0%Z ↔
    (inject_Z (Config.seconds (cfg s)) <= elapsed e s)%Q) ∧
   (is_running s = true →
    (remaining_seconds e s = 0%Z ↔ ended_at (tick e s) = Some (now_ended e)))).
Proof.
  unfold remaining_seconds.
  pose proof (elapsed_nonneg e s) as Hel.
  rewrite (int_of_float_floor _ Hel).
  assert (Hfl : (0 <= Qfloor (elapsed e s))%Z).
  { apply le_floor_iff. exact Hel. }
  pose proof (le_floor_iff (Config.seconds (cfg s)) (elapsed e s)) as Hiff.
  destruct (String.eqb_spec (Config.mode (cfg s)) "time") as [Hm|Hm]; cbn [negb].
  - split; [lia|]. split; [congruence|]. intros _.
    assert (Hz : Z.max 0 (Config.seconds (cfg s) - Qfloor (elapsed e s)) = 0%Z
                 ↔ (inject_Z (Config.seconds (cfg s)) <= elapsed e s)%Q).
    { rewrite <- Hiff. lia. }
    split; [exact Hz|]. intros Hr. rewrite Hz. split.
    + intros Hle. rewrite tick_fires by auto. reflexivity.
    + intros Hend.
      destruct (Qlt_le_dec (elapsed e s) (inject_Z (Config.seconds (cfg s))))
        as [Hlt|Hle]; [|exact Hle].
      rewrite (tick_waits _ _ Hlt) in Hend.
      apply is_running_spec in Hr as [_ Hr]. congruence.
  - split; [lia|]. split; [reflexivity | contradiction].
Qed.

Lemma countdown_matches_tick_witness :
  remaining_seconds batch_env third_word_session = 0%Z ∧
  remaining_seconds batch_env (init sudden_cfg batch_env) = 0%Z.
Proof.
  split.
  - apply (proj1 (proj2 (countdown_matches_tick batch_env third_word_session))).
    discriminate.
  - apply (proj1 (proj2 (proj2 (countdown_matches_tick batch_env (init sudden_cfg batch_env)))
                   eq_refl)).
    discriminate.
Defined.

(** ** [draw_centered] *)

(** X11. [draw_centered] never starts left of column 0 and, in a window of width
    [w >= 0], limits the text to end at the right edge; a text that fits is
    written whole, with a left margin at most one column narrower than the
    right one. *)
Theorem draw_centered_in_window (w y : Z) (text : string) (a : attr) :
  ∃ x n, draw_centered w y text a = addnstr y x text n a ∧
    (0 <= x)%Z ∧ (0 <= n)%Z ∧
    ((0 <= w)%Z → (x + n = w)%Z) ∧
    ((Z.of_nat (String.length text) <= w)%Z →
     (Z.of_nat (String.length text) <= n)%Z ∧
     (x <= w - x - Z.of_nat (String.length text) <= x + 1)%Z).
Proof.
  unfold draw_centered. cbv zeta.
  set (len := Z.of_nat (String.length text)).
  assert (Hlen : (0 <= len)%Z) by (subst len; lia).
  eexists _, _. split; [reflexivity|].
  pose proof (Z.div_mod (w - len) 2 ltac:(lia)) as Hdm.
  pose proof (Z.mod_pos_bound (w - len) 2 ltac:(lia)) as Hmod.
  repeat split; try lia.
Qed.

Lemma draw_centered_in_window_witness :
  ∃ x n, draw_centered 80 12 "Start typing to begin..." A_DIM
         = addnstr 12 x "Start typing to begin..." n A_DIM ∧
         (x + n = 80)%Z ∧ (24 <= n)%Z.
Proof.
  destruct (draw_centered_in_window 80 12 "Start typing to begin..." A_DIM)
    as (x & n & Heq & _ & _ & Hw & Hfit).
  exists x, n. split; [exact Heq|]. split; [apply Hw; lia|].
  apply Hfit. simpl. lia.
Defined.

(** ** Layout: what the wrapped positions look like *)

Section Placing.
Variable s : TypingSession.
Variables height width : Z.

Lemma layout_loop_cons (wd : WordState) (rest : list WordState)
      (idx : nat) (y x0 : Z) (ps : list position) (cl : option Z) :
  layout_loop s height width (wd :: rest) idx y x0 ps cl =
  let w := Z.of_nat (String.length (target wd)) in
  match place height width y x0 w with
  | None => (ps, cl)
  | Some (y1, x2) =>
      layout_loop s height width rest (S idx) y1 (x2 + w)%Z
                  (ps ++ [(idx, y1, x2)])
                  (if idx =? index s then Some y1 else cl)
  end.
Proof.
  cbn [layout_loop]. unfold place. cbv zeta.
  destruct (negb (y <? height)%Z); [reflexivity|].
  destruct (0 <? x0)%Z;
    destruct (width <? _)%Z; cbn [andb];
    try destruct (height <=? y + 1)%Z; rewrite ?Z.add_0_r; reflexivity.
Qed.

Lemma layout_loop_placing (ws : list WordState) :
  ∀ idx y x0 ps cl,
    fst (layout_loop s height width ws idx y x0 ps cl)
    = ps ++ placing height width ws idx y x0.
Proof.
  induction ws as [|wd rest IH]; intros idx y x0 ps cl.
  - cbn. now rewrite app_nil_r.
  - rewrite layout_loop_cons. cbn [placing]. cbv zeta.
    destruct (place _ _ _ _ _) as [[y1 x2]|]; [|cbn; now rewrite app_nil_r].
    rewrite IH, <- app_assoc. reflexivity.
Qed.

Lemma layout_placing (start_idx : nat) :
  fst (layout s height width start_idx)
  = placing height width (drop start_idx (words s)) start_idx 0 0.
Proof. unfold layout. now rewrite layout_loop_placing. Qed.

Lemma place_spec (y x0 w y1 x2 : Z) :
  place height width y x0 w = Some (y1, x2) →
  (y < height)%Z ∧ (y1 < height)%Z ∧
  ((y1 = y ∧ x2 = (x0 + (if (0 <? x0)%Z then 1 else 0))%Z ∧ (x2 + w <= width)%Z)
   ∨ (y1 = (y + 1)%Z ∧ x2 = 0%Z ∧
      (width < x0 + (if (0 <? x0)%Z then 1 else 0) + w)%Z)).
Proof.
  unfold place. destruct (Z.ltb_spec y height); cbn [negb]; [|discriminate].
  cbv zeta. destruct (Z.ltb_spec width (x0 + (if (0 <? x0)%Z then 1 else 0) + w)).
  - destruct (Z.leb_spec height (y + 1)); [discriminate|].
    intros [= <- <-]. split; [lia|]. split; [lia|]. right. auto.
  - intros [= <- <-]. split; [lia|]. split; [lia|]. left.
    split; [reflexivity|]. split; [reflexivity | lia].
Qed.

Lemma placing_indices (ws : list WordState) :
  ∀ idx y x0,
    let ps := placing height width ws idx y x0 in
    map (λ p : position, p.1.1) ps = seq idx (length ps) ∧ length ps ≤ length ws.
Proof.
  induction ws as [|wd rest IH]; intros idx y x0; cbn [placing]; [now split|].
  cbv zeta. destruct (place _ _ _ _ _) as [[y1 x2]|]; [|split; [reflexivity | simpl; lia]].
  destruct (IH (S idx) y1 (x2 + Z.of_nat (String.length (target wd)))%Z) as [H1 H2].
  cbn [map length seq fst]. rewrite H1. split; [reflexivity | lia].
Qed.

Lemma placing_cells (ws : list WordState) :
  ∀ idx y x0,
    (0 <= x0)%Z →
    Forall (λ p : position, (y <= p.1.2 < height)%Z ∧ (0 <= p.2)%Z)
           (placing height width ws idx y x0).
Proof.
  induction ws as [|wd rest IH]; intros idx y x0 Hx; cbn [placing]; [constructor|].
  cbv zeta. destruct (place _ _ _ _ _) as [[y1 x2]|] eqn:Hp; [|constructor].
  apply place_spec in Hp as (Hy & Hy1 & Hcase).
  assert (Hx2 : (0 <= x2)%Z)
    by (destruct Hcase as [(_ & -> & _) | (_ & -> & _)];
        [destruct (0 <? x0)%Z|]; lia).
  assert (Hyy : (y <= y1)%Z) by (destruct Hcase as [(-> & _) | (-> & _)]; lia).
  constructor; [cbn; lia|].
  eapply Forall_impl; [apply IH; lia|]. cbn. intros p [? ?]. lia.
Qed.

Lemma placing_fits (ws : list WordState) :
  ∀ idx y x0,
    Forall (λ wd, (Z.of_nat (String.length (target wd)) <= width)%Z) ws →
    ∀ j p wd, placing height width ws idx y x0 !! j = Some p →
              ws !! j = Some wd →
              (p.2 + Z.of_nat (String.length (target wd)) <= width)%Z.
Proof.
  induction ws as [|wd0 rest IH]; intros idx y x0 Hall j p wd; cbn [placing];
    [discriminate|].
  cbv zeta. destruct (place _ _ _ _ _) as [[y1 x2]|] eqn:Hp; [|discriminate].
  apply Forall_cons in Hall as [Hw Hrest].
  destruct j as [|j]; cbn.
  - intros [= <-] [= <-]. cbn.
    apply place_spec in Hp as (_ & _ & [(_ & _ & ?) | (_ & -> & _)]); lia.
  - apply IH. exact Hrest.
Qed.

(** Neighbours in the list: the next word is on the same row, after the
    previous one and one space, or at the start of the next row. *)
Lemma placing_adjacent (ws : list WordState) :
  ∀ idx y x0 j p q wd,
    (0 <= x0)%Z →
    placing height width ws idx y x0 !! j = Some p →
    placing height width ws idx y x0 !! S j = Some q →
    ws !! j = Some wd →
    let e := (p.2 + Z.of_nat (String.length (target wd)))%Z in
    (q.1.2 = p.1.2 ∧ q.2 = (e + (if (0 <? e)%Z then 1 else 0))%Z)
    ∨ (q.1.2 = (p.1.2 + 1)%Z ∧ q.2 = 0%Z).
Proof.
  induction ws as [|wd0 rest IH]; intros idx y x0 j p q wd Hx; cbn [placing];
    [discriminate|].
  cbv zeta. destruct (place _ _ _ _ _) as [[y1 x2]|] eqn:Hp; [|discriminate].
  apply place_spec in Hp as (_ & _ & Hcase).
  assert (Hx2 : (0 <= x2)%Z)
    by (destruct Hcase as [(_ & -> & _) | (_ & -> & _)];
        [destruct (0 <? x0)%Z|]; lia).
  destruct j as [|j]; cbn [lookup list_lookup].
  - intros [= <-] Hq [= <-]. cbn [fst snd].
    destruct rest as [|wd1 rest]; [discriminate|]. cbn [placing] in Hq.
    cbv zeta in Hq. destruct (place _ _ _ _ _) as [[y2 x3]|] eqn:Hp2; [|discriminate].
    cbn in Hq. injection Hq as <-. cbn [fst snd].
    apply place_spec in Hp2 as (_ & _ & [(-> & -> & _) | (-> & -> & _)]); auto.
  - intros Hpj Hqj Hwd.
    apply (IH (S idx) y1 (x2 + Z.of_nat (String.length (target wd0)))%Z j p q wd);
      [lia | exact Hpj | exact Hqj | exact Hwd].
Qed.
End Placing.

Lemma lookup_drop_word (s : TypingSession) (start_idx j : nat) :
  drop start_idx (words s) !! j = words s !! (start_idx + j).
Proof. apply lookup_drop. Qed.

(** X12. The positions [layout(start_idx)] returns are the words
    [start_idx, start_idx + 1, ...] of the stream, in order and without
    gaps, each on a row in [[0, height)] at a column [>= 0]; there are none
    when the viewport has no row or [start_idx] is past the end. *)
Theorem layout_positions_in_order (s : TypingSession) (height width : Z)
        (start_idx : nat) :
  let ps := fst (layout s height width start_idx) in
  map (λ p : position, p.1.1) ps = seq start_idx (length ps) ∧
  start_idx + length ps ≤ Nat.max start_idx (length (words s)) ∧
  Forall (λ p : position,
            p.1.1 < length (words s) ∧ (0 <= p.1.2 < height)%Z ∧ (0 <= p.2)%Z) ps ∧
  ((height <= 0)%Z ∨ length (words s) ≤ start_idx → ps = []).
Proof.
  cbv zeta. rewrite layout_placing.
  destruct (placing_indices height width (drop start_idx (words s)) start_idx 0 0)
    as [Hidx Hlen].
  cbv zeta in Hidx, Hlen. rewrite length_drop in Hlen.
  split; [exact Hidx|]. split; [lia|]. split.
  - apply Forall_forall. intros p Hp.
    pose proof (placing_cells height width (drop start_idx (words s)) start_idx 0 0
                  ltac:(lia)) as Hc.
    rewrite Forall_forall in Hc. specialize (Hc p Hp). split; [|exact Hc].
    assert (Hin : p.1.1 ∈ seq start_idx
                    (length (placing height width (drop start_idx (words s)) start_idx 0 0))).
    { rewrite <- Hidx. apply list_elem_of_fmap. eauto. }
    apply elem_of_seq in Hin. lia.
  - intros [Hh | Hpast].
    + destruct (drop start_idx (words s)) as [|wd rest]; [reflexivity|].
      cbn [placing]. cbv zeta. unfold place.
      destruct (Z.ltb_spec 0 height); [lia | reflexivity].
    + now rewrite drop_ge.
Qed.

Lemma layout_positions_in_order_witness :
  fst (layout third_word_session 2 6 1) = [(1, 0%Z, 0%Z); (2, 1%Z, 0%Z)] ∧
  fst (layout third_word_session 0 7 1) = [].
Proof.
  split; [reflexivity|].
  apply (proj2 (proj2 (proj2 (layout_positions_in_order third_word_session 0 7 1)))).
  left. lia.
Defined.

Lemma layout_lookup_word (s : TypingSession) (height width : Z) (start_idx j : nat)
      (p : position) :
  fst (layout s height width start_idx) !! j = Some p →
  p.1.1 = start_idx + j ∧
  ∃ wd, words s !! p.1.1 = Some wd ∧ drop start_idx (words s) !! j = Some wd.
Proof.
  rewrite layout_placing. intros Hp.
  destruct (placing_indices height width (drop start_idx (words s)) start_idx 0 0)
    as [Hidx Hlen]. cbv zeta in Hidx, Hlen.
  assert (Hj : j < length (placing height width (drop start_idx (words s)) start_idx 0 0))
    by (eapply lookup_lt_Some; eauto).
  assert (Hi : p.1.1 = start_idx + j).
  { assert (H : map (λ q : position, q.1.1)
                    (placing height width (drop start_idx (words s)) start_idx 0 0) !! j
                = Some p.1.1) by (rewrite list_lookup_fmap, Hp; reflexivity).
    rewrite Hidx in H. apply lookup_seq in H. lia. }
  split; [exact Hi|].
  destruct (lookup_lt_is_Some_2 (drop start_idx (words s)) j ltac:(lia)) as [wd Hwd].
  exists wd. split; [|exact Hwd]. rewrite Hi, <- lookup_drop. exact Hwd.
Qed.

(** X13. Words are laid out in reading order and never overlap: the word after
    [p] either follows it on the same row, one column after its end (right
    at its end when that is column 0), or starts the next row at column 0. *)
Theorem layout_reading_order (s : TypingSession) (height width : Z)
        (start_idx j : nat) (p q : position) :
  fst (layout s height width start_idx) !! j = Some p →
  fst (layout s height width start_idx) !! S j = Some q →
  q.1.1 = S p.1.1 ∧
  ((q.1.2 = p.1.2 ∧
    q.2 = (word_end s p + (if (0 <? word_end s p)%Z then 1 else 0))%Z)
   ∨ (q.1.2 = (p.1.2 + 1)%Z ∧ q.2 = 0%Z)).
Proof.
  intros Hp Hq.
  destruct (layout_lookup_word _ _ _ _ _ _ Hp) as (Hi & wd & Hwd & Hdrop).
  destruct (layout_lookup_word _ _ _ _ _ _ Hq) as (Hi' & _).
  split; [lia|]. unfold word_end. rewrite Hwd.
  rewrite layout_placing in Hp, Hq.
  exact (placing_adjacent height width (drop start_idx (words s)) start_idx 0 0
           j p q wd (Z.le_refl 0) Hp Hq Hdrop).
Qed.

Lemma layout_reading_order_witness :
  ∃ p q, fst (layout third_word_session 2 7 0) !! 0 = Some p ∧
         fst (layout third_word_session 2 7 0) !! 1 = Some q ∧
         q.1.2 = p.1.2 ∧ q.2 = 4%Z.
Proof.
  exists (0, 0%Z, 0%Z), (1, 0%Z, 4%Z).
  split; [reflexivity|]. split; [reflexivity|].
  destruct (layout_reading_order third_word_session 2 7 0 0 (0, 0%Z, 0%Z) (1, 0%Z, 4%Z)
              eq_refl eq_refl) as [_ H].
  split; reflexivity.
Defined.

(** X14. When no target is longer than the viewport is wide, no placed word
    reaches past the right edge. *)
Theorem layout_keeps_words_inside (s : TypingSession) (height width : Z)
        (start_idx : nat) (p : position) :
  Forall (λ wd, (Z.of_nat (String.length (target wd)) <= width)%Z) (words s) →
  p ∈ fst (layout s height width start_idx) →
  (0 <= p.2)%Z ∧ (word_end s p <= width)%Z.
Proof.
  intros Hall Hin. apply list_elem_of_lookup in Hin as [j Hp].
  destruct (layout_lookup_word _ _ _ _ _ _ Hp) as (_ & wd & Hwd & Hdrop).
  unfold word_end. rewrite Hwd. rewrite layout_placing in Hp. split.
  - pose proof (placing_cells height width (drop start_idx (words s)) start_idx 0 0
                  ltac:(lia)) as Hc.
    rewrite Forall_forall in Hc. apply Hc. apply list_elem_of_lookup. eauto.
  - apply (placing_fits height width (drop start_idx (words s)) start_idx 0 0
             (Forall_drop _ _ _ Hall) j p wd Hp Hdrop).
Qed.

Lemma layout_keeps_words_inside_witness :
  (word_end third_word_session (2%nat, 0%Z, 4%Z) <= 7)%Z.
Proof.
  apply (layout_keeps_words_inside third_word_session 2 7 1 (2, 0%Z, 4%Z)).
  - repeat constructor; simpl; lia.
  - apply list_elem_of_lookup. exists 1. reflexivity.
Defined.

(** ** Layout: the row of the current word *)

Lemma layout_loop_current_placed (s : TypingSession) (height width : Z)
      (ws : list WordState) :
  ∀ idx y x0 ps cl y' x',
    (index s, y', x') ∈ placing height width ws idx y x0 →
    snd (layout_loop s height width ws idx y x0 ps cl) = Some y'.
Proof.
  induction ws as [|wd rest IH]; intros idx y x0 ps cl y' x'; cbn [placing].
  - intros H. now apply elem_of_nil in H.
  - rewrite layout_loop_cons. cbv zeta.
    destruct (place _ _ _ _ _) as [[y1 x2]|]; [|intros H; now apply elem_of_nil in H].
    intros Hin. apply elem_of_cons in Hin as [Heq | Hin].
    + injection Heq as Hi -> ->. rewrite <- Hi, Nat.eqb_refl.
      apply layout_loop_past_index. lia.
    + eapply IH. exact Hin.
Qed.

Lemma layout_current_line_placed (s : TypingSession) (height width : Z)
      (start_idx : nat) (y : Z) :
  snd (layout s height width start_idx) = Some y →
  ∃ x, (index s, y, x) ∈ fst (layout s height width start_idx) ∧
       (0 <= y < height)%Z.
Proof.
  unfold layout.
  destruct (layout_loop _ _ _ _ _ _ _ _ _) as [ps' cl'] eqn:Hl. cbn [fst snd].
  intros ->.
  apply layout_loop_current_line in Hl as [_ [H | (y' & x' & H & Hin & Hy)]];
    [discriminate | | lia].
  injection H as <-. eauto.
Qed.

(** X15. [layout] reports a current line exactly when it has placed the current
    word, and then it is that word's row. *)
Theorem current_line_is_row_of_current_word (s : TypingSession) (height width : Z)
        (start_idx : nat) (y : Z) :
  snd (layout s height width start_idx) = Some y ↔
  ∃ x, (index s, y, x) ∈ fst (layout s height width start_idx).
Proof.
  split.
  - intros H. apply layout_current_line_placed in H as (x & Hin & _).
    eauto.
  - intros [x Hin]. rewrite layout_placing in Hin.
    unfold layout. eapply layout_loop_current_placed. exact Hin.
Qed.

Lemma current_line_is_row_of_current_word_witness :
  snd (layout third_word_session 2 6 1) = Some 1%Z.
Proof.
  apply (proj2 (current_line_is_row_of_current_word third_word_session 2 6 1 1%Z)).
  exists 0%Z. apply list_elem_of_lookup. exists 1. reflexivity.
Defined.

(** ** Layout: a word wider than the viewport *)

Lemma placing_wide (height width : Z) (ws : list WordState) :
  ∀ idx y x0 j p wd,
    (0 <= y)%Z → (0 <= x0)%Z →
    placing height width ws idx y x0 !! j = Some p →
    ws !! j = Some wd →
    (width < Z.of_nat (String.length (target wd)))%Z →
    (1 <= p.1.2)%Z ∧ p.2 = 0%Z.
Proof.
  induction ws as [|wd0 rest IH]; intros idx y x0 j p wd Hy Hx; cbn [placing];
    [discriminate|].
  cbv zeta. destruct (place _ _ _ _ _) as [[y1 x2]|] eqn:Hp; [|discriminate].
  apply place_spec in Hp as (_ & _ & Hcase).
  assert (Hx2 : (0 <= x2)%Z)
    by (destruct Hcase as [(_ & -> & _) | (_ & -> & _)];
        [destruct (0 <? x0)%Z|]; lia).
  assert (Hy1 : (0 <= y1)%Z) by (destruct Hcase as [(-> & _) | (-> & _)]; lia).
  destruct j as [|j]; cbn [lookup list_lookup].
  - intros [= <-] [= <-] Hwide. cbn [fst snd].
    destruct Hcase as [(_ & _ & ?) | (-> & -> & _)]; lia.
  - intros Hpj Hwd Hwide.
    apply (IH (S idx) y1 (x2 + Z.of_nat (String.length (target wd0)))%Z j p wd);
      [lia | lia | exact Hpj | exact Hwd | exact Hwide].
Qed.

(** X16. A current word that is wider than the viewport is never put on row 0:
    it goes to column 0 of a later row, leaving the row before it short.  In
    a viewport of a single row it is therefore never placed, whatever the
    start index, and the pass gives up: it moves [view_start] 1000 words on
    and draws the layout from there. *)
Theorem wide_current_word (s : TypingSession) (height width : Z) (wd : WordState) :
  words s !! index s = Some wd →
  (width < Z.of_nat (String.length (target wd)))%Z →
  (∀ start_idx y x,
      (index s, y, x) ∈ fst (layout s height width start_idx) →
      (1 <= y)%Z ∧ x = 0%Z) ∧
  (height = 1%Z →
   (∀ start_idx, snd (layout s height width start_idx) = None) ∧
   draw_words_area s height width =
   (set_view_start (view_start s + 1000) s,
    fst (layout s height width (view_start s + 1000)))).
Proof.
  intros Hwd Hwide.
  assert (Hrow : ∀ start_idx y x,
             (index s, y, x) ∈ fst (layout s height width start_idx) →
             (1 <= y)%Z ∧ x = 0%Z).
  { intros start_idx y x Hin. apply list_elem_of_lookup in Hin as [j Hp].
    destruct (layout_lookup_word _ _ _ _ _ _ Hp) as (Hi & wd' & Hwd' & Hdrop).
    cbn [fst snd] in Hwd'. rewrite Hwd in Hwd'. injection Hwd' as <-.
    rewrite layout_placing in Hp.
    exact (placing_wide height width (drop start_idx (words s)) start_idx 0 0
                        j (index s, y, x) wd (Z.le_refl 0) (Z.le_refl 0)
                        Hp Hdrop Hwide). }
  split; [exact Hrow|]. intros ->.
  assert (Hnone : ∀ start_idx, snd (layout s 1 width start_idx) = None).
  { intros start_idx.
    destruct (snd (layout s 1 width start_idx)) as [y|] eqn:Hcl; [|reflexivity].
    apply layout_current_line_placed in Hcl as (x & Hin & Hy).
    apply Hrow in Hin. lia. }
  split; [exact Hnone|].
  rewrite draw_words_area_unfold. cbv zeta.
  rewrite scroll_search_exhausted; [reflexivity|].
  intros k _. now rewrite Hnone.
Qed.

Lemma wide_current_word_witness :
  draw_words_area wide_session 1 5 =
  (set_view_start 1000 wide_session, fst (layout wide_session 1 5 1000)).
Proof.
  assert (Hw : (5 < Z.of_nat (String.length (target (mkWordState "elephant" ""))))%Z)
    by (simpl; lia).
  exact (proj2 (proj2 (wide_current_word wide_session 1 5
                         (mkWordState "elephant" "") eq_refl Hw) eq_refl)).
Defined.

(** ** The scroll search: first fit *)

Lemma scroll_search_session (s : TypingSession) (height width : Z) (v0 n : nat) :
  ∀ v, scroll_search (set_view_start v0 s) height width n v
       = scroll_search s height width n v.
Proof.
  induction n as [|n IH]; intros v; [reflexivity|].
  rewrite !scroll_search_S. rewrite IH. reflexivity.
Qed.

(** X17. The pass scrolls only when it has to, and then as little as it can: the
    stored [view_start] moves forward by at most 1000, no start index it
    skipped would have shown the current word, and when the current word is
    visible from the stored [view_start] the session is left as it is. *)
Theorem scroll_is_first_fit (s : TypingSession) (height width : Z) :
  let v' := view_start (fst (draw_words_area s height width)) in
  view_start s ≤ v' ≤ view_start s + 1000 ∧
  (∀ u, view_start s ≤ u < v' →
        fits height (snd (layout s height width u)) = false) ∧
  (v' < view_start s + 1000 →
   fits height (snd (layout s height width v')) = true) ∧
  (fits height (snd (layout s height width (view_start s))) = true →
   draw_words_area s height width
   = (s, fst (layout s height width (view_start s)))).
Proof.
  cbv zeta. rewrite draw_words_area_unfold. cbv zeta.
  cbn [fst view_start set_view_start].
  destruct (scroll_search_first s height width 1000 (view_start s))
    as (Hr & Hbefore & Hat). cbv zeta in Hr, Hbefore, Hat.
  split; [exact Hr|]. split; [exact Hbefore|]. split; [exact Hat|].
  intros Hfit.
  assert (Hsame : scroll_search s height width 1000 (view_start s) = view_start s).
  { destruct (decide (scroll_search s height width 1000 (view_start s) = view_start s))
      as [H|H]; [exact H|].
    rewrite (Hbefore (view_start s)) in Hfit by lia. discriminate Hfit. }
  rewrite Hsame. now destruct s.
Qed.

Lemma scroll_is_first_fit_witness :
  draw_words_area third_word_session 2 6
  = (set_view_start 1 third_word_session, [(1, 0%Z, 0%Z); (2, 1%Z, 0%Z)])
  ∧ fits 2 (snd (layout third_word_session 2 6 0)) = false.
Proof.
  split; [vm_compute; reflexivity|].
  apply (proj1 (proj2 (scroll_is_first_fit third_word_session 2 6)) 0).
  vm_compute. lia.
Defined.

(** X18. A pass that found the current word is stable: run again on the session
    it left, in the same viewport, it changes nothing and draws the same
    positions. *)
Theorem successful_pass_is_stable (s : TypingSession) (height width : Z) :
  let out := draw_words_area s height width in
  fits height (snd (layout s height width (view_start (fst out)))) = true →
  draw_words_area (fst out) height width = out.
Proof.
  cbv zeta. rewrite (draw_words_area_unfold s). cbv zeta.
  cbn [fst snd view_start set_view_start].
  set (r := scroll_search s height width 1000 (view_start s)). intros Hfit.
  rewrite draw_words_area_unfold. cbv zeta.
  cbn [view_start set_view_start]. rewrite scroll_search_session.
  assert (Hr : scroll_search s height width 1000 r = r).
  { change 1000 with (S 999). rewrite scroll_search_S, Hfit. reflexivity. }
  rewrite Hr. reflexivity.
Qed.

Lemma successful_pass_is_stable_witness :
  draw_words_area (fst (draw_words_area third_word_session 2 6)) 2 6
  = draw_words_area third_word_session 2 6.
Proof.
  apply (successful_pass_is_stable third_word_session 2 6).
  vm_compute. reflexivity.
Defined.

(** ** One operation, by cases *)

Lemma counted_judged (e : Env) (w : WordState) (s : TypingSession) :
  judged (start_clock e s) (correct_chars s + judged_correct w)
         (incorrect_chars s + judged_incorrect w)
  = counted e w s.
Proof.
  unfold judged, counted, start_clock.
  destruct (started_at s) eqn:E; cbn; rewrite ?E; reflexivity.
Qed.

Lemma submit_word_submitted (e : Env) (s s' : TypingSession) (w : WordState) :
  current_word s = Some w →
  _submit_word e (start_clock e s) = Some s' → submitted e w s s'.
Proof.
  intros Hw Hs.
  destruct (start_clock_frame e s) as (Hc & Hws & Hix & _ & _ & _ & Hcc & Hic & Hcw).
  assert (Hw1 : current_word (start_clock e s) = Some w)
    by (now rewrite current_word_start_clock).
  destruct (submit_word_counters e _ _ Hw1) as (s'' & Hs'' & Hc' & Hi' & _ & _).
  rewrite Hs in Hs''. injection Hs'' as <-.
  apply submit_word_cases in Hs as (w' & cc & ic & _ & Hcase).
  unfold target_reached in Hcase. rewrite Hc, Hws, Hix, Hcw in Hcase.
  fold (target_reached s) in Hcase.
  assert (Hj : ∀ x, x = judged (start_clock e s) cc ic ∨
                    x = set_ended_at (Some (now_ended e)) (judged (start_clock e s) cc ic) ∨
                    x = _extend_words e (judged (start_clock e s) cc ic) →
                    correct_chars x = cc ∧ incorrect_chars x = ic).
  { intros x [-> | [-> | ->]]; split; reflexivity. }
  assert (Hcnt : judged (start_clock e s) cc ic = counted e w s).
  { rewrite <- counted_judged.
    destruct Hcase as [[_ Heq] | [(_ & _ & Heq) | (_ & _ & Heq)]];
      destruct (Hj s' ltac:(rewrite Heq; auto)) as [<- <-];
      rewrite Hc', Hi', Hcc, Hic; unfold judged_correct, judged_incorrect;
      f_equal; lia. }
  rewrite Hcnt in Hcase. exact Hcase.
Qed.

Lemma tick_cases (e : Env) (s : TypingSession) :
  tick e s = s ∨
  (Config.mode (cfg s) = "time" ∧ is_running s = true ∧
   tick e s = set_ended_at (Some (now_ended e)) s).
Proof.
  unfold tick. destruct (String.eqb_spec (Config.mode (cfg s)) "time") as [Hm|Hm];
    [|now left].
  destruct (is_running s); [|now left]. cbn [andb].
  destruct (Qle_bool _ _); [right; auto | now left].
Qed.

Lemma apply_op_is_step (o : op) (s s' : TypingSession) :
  apply_op o s = Some s' → step o s s'.
Proof.
  destruct o as [e ch | e | h w]; cbn [apply_op]; intros Ho.
  - destruct (is_finished s) eqn:Hf.
    + rewrite handle_key_finished in Ho by exact Hf. injection Ho as <-.
      now constructor.
    + destruct (is_submit ch) eqn:Hs.
      * rewrite (handle_key_submit _ _ _ Hf Hs) in Ho.
        destruct (current_word s) as [w|] eqn:Hw.
        -- eapply step_submit; eauto. now apply submit_word_submitted.
        -- exfalso. unfold _submit_word in Ho.
           rewrite current_word_start_clock, Hw in Ho. discriminate Ho.
      * apply step_edit; auto. eapply handle_key_edited; eauto.
  - injection Ho as <-.
    destruct (tick_cases e s) as [H | (Hm & Hr & ->)].
    + rewrite H. now constructor.
    + now constructor.
  - injection Ho as <-. constructor.
    apply (scroll_search_first s h w 1000 (view_start s)).
Qed.

Lemma start_clock_cases (e : Env) (s : TypingSession) :
  start_clock e s = s ∨
  (started_at s = None ∧ start_clock e s = set_started_at (Some (now_started e)) s).
Proof. unfold start_clock. destruct (started_at s); auto. Qed.

Ltac step_cases H :=
  destruct H as [e ch s Hf | e ch s s' Hf Hs He | e ch s w s' Hf Hs Hw Hsub
                 | e s Ht | e s Hm Hr | h w s v Hv];
  [ | destruct He as [-> | (w & t' & Hw & Ht' & ->)]
    | destruct Hsub as [[Htr ->] | [(Hntr & Hlen & ->) | (Hntr & Hlt & ->)]]
    | | | ].

Ltac clock_cases e s :=
  let Hn := fresh "Hn" in
  destruct (start_clock_cases e s) as [-> | [Hn ->]].

(** ** Invariants of runs: what only grows, what never changes *)

Lemma step_grows (o : op) (s s' : TypingSession) :
  step o s s' →
  cfg s' = cfg s ∧
  total_keystrokes s ≤ total_keystrokes s' ∧
  correct_chars s ≤ correct_chars s' ∧
  incorrect_chars s ≤ incorrect_chars s' ∧
  completed_words s ≤ completed_words s' ∧
  view_start s ≤ view_start s' ∧
  length (words s) ≤ length (words s') ∧
  (∀ t, started_at s = Some t → started_at s' = Some t).
Proof.
  intros H. step_cases H;
    try clock_cases e s;
    unfold counted, _extend_words, start_clock;
    cbn [set_ended_at set_words set_total_keystrokes set_started_at set_view_start
         cfg words index view_start started_at ended_at total_keystrokes
         correct_chars incorrect_chars completed_words];
    rewrite ?length_insert, ?length_app;
    repeat split; try lia; try congruence;
    intros t Ht; rewrite ?Ht; try reflexivity; try congruence.
Qed.

(** X19. Along every sequence of keys, ticks and frames the configuration stays
    the same, [started_at] once set is never changed, and the keystroke and
    judged counters, [completed_words], [view_start] and the length of the
    word stream never decrease. *)
Theorem counters_only_grow (ops : list op) (s s' : TypingSession) :
  run ops s = Some s' →
  cfg s' = cfg s ∧
  total_keystrokes s ≤ total_keystrokes s' ∧
  correct_chars s ≤ correct_chars s' ∧
  incorrect_chars s ≤ incorrect_chars s' ∧
  completed_words s ≤ completed_words s' ∧
  view_start s ≤ view_start s' ∧
  length (words s) ≤ length (words s') ∧
  (∀ t, started_at s = Some t → started_at s' = Some t).
Proof.
  apply (run_invariant_all
           (λ x, cfg x = cfg s ∧
                 total_keystrokes s ≤ total_keystrokes x ∧
                 correct_chars s ≤ correct_chars x ∧
                 incorrect_chars s ≤ incorrect_chars x ∧
                 completed_words s ≤ completed_words x ∧
                 view_start s ≤ view_start x ∧
                 length (words s) ≤ length (words x) ∧
                 (∀ t, started_at s = Some t → started_at x = Some t))).
  - intros o x x' (H1 & H2 & H3 & H4 & H5 & H6 & H7 & H8) Ho.
    apply apply_op_is_step, step_grows in Ho
      as (G1 & G2 & G3 & G4 & G5 & G6 & G7 & G8).
    repeat split; try lia; try congruence. intros t Ht. apply G8, H8, Ht.
  - repeat split; auto.
Qed.

Lemma counters_only_grow_witness :
  ∃ s', run [Key batch_env 99; Key batch_env 32; Tick batch_env; Layout 5 40]
            (init cat_cfg batch_env) = Some s' ∧
        cfg s' = cat_cfg.
Proof.
  destruct (run [Key batch_env 99; Key batch_env 32; Tick batch_env; Layout 5 40]
                (init cat_cfg batch_env)) as [s'|] eqn:Hr;
    [|vm_compute in Hr; discriminate Hr].
  exists s'. split; [reflexivity|].
  exact (proj1 (counters_only_grow _ _ _ Hr)).
Defined.

(** ** The word stream is append-only and submitted words are frozen *)

Lemma step_stream (o : op) (s s' : TypingSession) :
  step o s s' →
  index s ≤ index s' ∧
  (∃ batch, map target (words s') = map target (words s) ++ batch) ∧
  (∀ i, i < index s → words s' !! i = words s !! i).
Proof.
  assert (Hnil : ∀ l : list string, ∃ batch, l = l ++ batch)
    by (intros l; exists []; now rewrite app_nil_r).
  intros H. step_cases H;
    try clock_cases e s;
    unfold counted, _extend_words, start_clock;
    cbn [set_ended_at set_words set_total_keystrokes set_started_at set_view_start
         cfg words index view_start started_at ended_at total_keystrokes
         correct_chars incorrect_chars completed_words];
    (split; [lia|]); (split; [|]);
    try apply Hnil; try (intros i Hi; reflexivity).
  all: try (rewrite list_fmap_insert; cbn [set_typed target];
            rewrite list_insert_id;
            [apply Hnil | unfold current_word in Hw; now rewrite list_lookup_fmap, Hw]).
  all: try (intros i Hi; apply list_lookup_insert_ne; lia).
  all: try (rewrite fmap_app; eauto).
  all: intros i Hi; apply lookup_app_l;
    unfold current_word in Hw; apply lookup_lt_Some in Hw; lia.
Qed.

(** X20. Along every run the targets already in the stream are never changed or
    removed (the stream only gets longer), and the words before the index,
    the submitted ones, keep the [typed] string they were submitted with. *)
Theorem stream_is_append_only (ops : list op) (s s' : TypingSession) :
  run ops s = Some s' →
  (∃ batch, map target (words s') = map target (words s) ++ batch) ∧
  (∀ i, i < index s → words s' !! i = words s !! i).
Proof.
  intros Hr.
  enough (index s ≤ index s' ∧
          (∃ batch, map target (words s') = map target (words s) ++ batch) ∧
          (∀ i, i < index s → words s' !! i = words s !! i)) by tauto.
  revert Hr.
  apply (run_invariant_all
           (λ x, index s ≤ index x ∧
                 (∃ batch, map target (words x) = map target (words s) ++ batch) ∧
                 (∀ i, i < index s → words x !! i = words s !! i))).
  - intros o x x' (H1 & [b Hb] & H3) Ho.
    apply apply_op_is_step, step_stream in Ho as (G1 & [b' Hb'] & G3).
    split; [lia|]. split.
    + exists (b ++ b'). now rewrite Hb', Hb, app_assoc.
    + intros i Hi. rewrite G3 by lia. now apply H3.
  - split; [lia|]. split; [exists []; now rewrite app_nil_r | auto].
Qed.

Lemma stream_is_append_only_witness :
  ∃ s', run [Key fresh_env 8; Key fresh_env 32; Key fresh_env 100]
            third_word_session = Some s' ∧
        words s' !! 1 = Some (mkWordState "dog" "dig").
Proof.
  destruct (run [Key fresh_env 8; Key fresh_env 32; Key fresh_env 100]
                third_word_session) as [s'|] eqn:Hr;
    [|vm_compute in Hr; discriminate Hr].
  exists s'. split; [reflexivity|].
  rewrite (proj2 (stream_is_append_only _ _ _ Hr) 1); [reflexivity | simpl; lia].
Defined.

(** ** What ends a session *)

(** X21. A session ends in exactly two ways: a [tick] in time mode, on a running
    session whose elapsed time has reached [cfg.seconds], or a submit key in
    words mode that brings [completed_words] to [cfg.words]; [ended_at] is
    the clock reading of that call.  With any other mode string the session
    never ends. *)
Theorem what_ends_a_session :
  (∀ o s s' t,
      apply_op o s = Some s' → ended_at s = None → ended_at s' = Some t →
      (∃ e, o = Tick e ∧ Config.mode (cfg s) = "time" ∧ is_running s = true ∧
            (inject_Z (Config.seconds (cfg s)) <= elapsed e s)%Q ∧
            t = now_ended e)
      ∨ (∃ e ch, o = Key e ch ∧ is_submit ch = true ∧
                 Config.mode (cfg s) = "words" ∧
                 (Config.words (cfg s) <= Z.of_nat (completed_words s + 1))%Z ∧
                 t = now_ended e))
  ∧ (∀ ops s s',
        Config.mode (cfg s) ≠ "time" → Config.mode (cfg s) ≠ "words" →
        ended_at s = None → run ops s = Some s' → ended_at s' = None).
Proof.
  assert (Hone : ∀ o s s' t,
      apply_op o s = Some s' → ended_at s = None → ended_at s' = Some t →
      (∃ e, o = Tick e ∧ Config.mode (cfg s) = "time" ∧ is_running s = true ∧
            (inject_Z (Config.seconds (cfg s)) <= elapsed e s)%Q ∧
            t = now_ended e)
      ∨ (∃ e ch, o = Key e ch ∧ is_submit ch = true ∧
                 Config.mode (cfg s) = "words" ∧
                 (Config.words (cfg s) <= Z.of_nat (completed_words s + 1))%Z ∧
                 t = now_ended e)).
  { intros o s0 s0' t Ho Hn Hend.
    pose proof (apply_op_is_step _ _ _ Ho) as H.
    step_cases H;
      try clock_cases e s;
      unfold counted, _extend_words, start_clock in Hend;
      cbn [set_ended_at set_words set_total_keystrokes set_started_at set_view_start
           ended_at] in Hend;
      try congruence.
    all: try (destruct (started_at s); cbn in Hend; congruence).
    all: injection Hend as <-.
    all: try (right; destruct Htr as [Hm Hle]; exists e, ch;
              repeat split; auto; fail).
    left. exists e. repeat split; auto.
    destruct (Qlt_le_dec (elapsed e s) (inject_Z (Config.seconds (cfg s))))
      as [Hlt|Hle]; [|exact Hle].
    cbn [apply_op] in Ho. rewrite (tick_waits _ _ Hlt) in Ho.
    injection Ho as Ho. apply (f_equal ended_at) in Ho.
    cbn [set_ended_at ended_at] in Ho. congruence. }
  split; [exact Hone|].
  intros ops s s' Hnt Hnw Hn Hr.
  enough (cfg s' = cfg s ∧ ended_at s' = None) by tauto. revert Hr.
  apply (run_invariant_all (λ x, cfg x = cfg s ∧ ended_at x = None)); [|auto].
  intros o x x' [Hc He] Ho. split.
  - apply apply_op_is_step, step_grows in Ho as [G _]. congruence.
  - destruct (ended_at x') as [t|] eqn:E; [|reflexivity].
    destruct (Hone _ _ _ _ Ho He E) as [(e & _ & Hm & _) | (e & ch & _ & _ & Hm & _)];
      congruence.
Qed.

Lemma what_ends_a_session_witness :
  ∃ s', run [Key fresh_env 97; Key fresh_env 32; Tick fresh_env]
            (init (Config.mk "zen" 60 2 None None) fresh_env) = Some s' ∧
        ended_at s' = None.
Proof.
  destruct (run [Key fresh_env 97; Key fresh_env 32; Tick fresh_env]
                (init (Config.mk "zen" 60 2 None None) fresh_env)) as [s'|] eqn:Hr;
    [|vm_compute in Hr; discriminate Hr].
  exists s'. split; [reflexivity|].
  assert (H1 : Config.mode (cfg (init (Config.mk "zen" 60 2 None None) fresh_env))
               ≠ "time") by discriminate.
  assert (H2 : Config.mode (cfg (init (Config.mk "zen" 60 2 None None) fresh_env))
               ≠ "words") by discriminate.
  exact (proj2 what_ends_a_session _ _ s' H1 H2 eq_refl Hr).
Defined.

(** ** Words mode: the count of completed words *)

(** X22. In words mode with [cfg.words > 0], in every state reached from a fresh
    session: [completed_words] never exceeds [cfg.words]; the session is
    finished exactly when the two are equal; and the "words left" count of
    the header is their difference, which is 0 exactly when the session is
    finished. *)
Theorem words_mode_count (c : Config.t) (e0 : Env) (ops : list op) (st : TypingSession) :
  Config.mode c = "words" →
  (0 < Config.words c)%Z →
  run ops (init c e0) = Some st →
  (Z.of_nat (completed_words st) <= Config.words c)%Z ∧
  (is_finished st = true ↔ Z.of_nat (completed_words st) = Config.words c) ∧
  remaining_words st = (Config.words c - Z.of_nat (completed_words st))%Z ∧
  (remaining_words st = 0%Z ↔ is_finished st = true).
Proof.
  intros Hmode Hpos Hr.
  enough (Hinv : cfg st = c ∧
          (ended_at st = None → (Z.of_nat (completed_words st) < Config.words c)%Z) ∧
          (is_Some (ended_at st) → Z.of_nat (completed_words st) = Config.words c)).
  { destruct Hinv as (Hc & Hrun & Hfin). unfold remaining_words, is_finished.
    rewrite Hc. destruct (ended_at st) as [t|].
    - specialize (Hfin ltac:(eauto)). repeat split; auto; lia.
    - specialize (Hrun eq_refl). repeat split; try lia; try congruence. }
  revert Hr.
  apply (run_invariant_all
           (λ x, cfg x = c ∧
                 (ended_at x = None → (Z.of_nat (completed_words x) < Config.words c)%Z) ∧
                 (is_Some (ended_at x) → Z.of_nat (completed_words x) = Config.words c))).
  - intros o x x' (Hc & Hrun & Hfin) Ho.
    pose proof (apply_op_is_step _ _ _ Ho) as H.
    step_cases H;
      try (apply is_finished_false in Hf; specialize (Hrun Hf));
      try clock_cases e s;
      unfold counted, _extend_words, start_clock, target_reached in *;
      cbn [set_ended_at set_words set_total_keystrokes set_started_at set_view_start
           cfg ended_at completed_words] in *;
      try (split; [exact Hc|]; split; [exact Hrun | exact Hfin]);
      try (split; [exact Hc|]; split; [intros _; exact Hrun | intros [? ?]; congruence]);
      subst c;
      try (split; [reflexivity|]; split; [discriminate | intros _; lia]);
      try (split; [reflexivity|]; split;
           [intros _; lia | intros [? ?]; congruence]);
      try congruence.
    all: split; [reflexivity|]; split; [intros _ | intros [? ?]; congruence].
    all: destruct (Z.le_gt_cases (Config.words (cfg s))
                                 (Z.of_nat (completed_words s + 1)));
      [exfalso; apply Hntr; auto | lia].
  - split; [reflexivity|]. split; [intros _; simpl; lia | intros [? ?]; discriminate].
Qed.

Lemma words_mode_count_witness :
  ∃ s', run [Key fresh_env 99; Key fresh_env 32; Key fresh_env 32; Key fresh_env 32]
            (init pair_cfg fresh_env) = Some s' ∧
        completed_words s' = 2 ∧ is_finished s' = true.
Proof.
  destruct (run [Key fresh_env 99; Key fresh_env 32; Key fresh_env 32; Key fresh_env 32]
                (init pair_cfg fresh_env)) as [s'|] eqn:Hr;
    [|vm_compute in Hr; discriminate Hr].
  exists s'. split; [reflexivity|].
  destruct (words_mode_count pair_cfg fresh_env _ s' eq_refl eq_refl Hr)
    as (_ & Hfin & _ & _).
  assert (Hc : completed_words s' = 2)
    by (vm_compute in Hr; injection Hr as <-; reflexivity).
  split; [exact Hc|]. apply Hfin. rewrite Hc. reflexivity.
Defined.

(** ** The counters are the judgement of the submitted words *)

Lemma step_accounting (o : op) (s s' : TypingSession) :
  step o s s' →
  correct_chars s = sum_list_with judged_correct (take (index s) (words s)) →
  incorrect_chars s = sum_list_with judged_incorrect (take (index s) (words s)) →
  correct_chars s' = sum_list_with judged_correct (take (index s') (words s')) ∧
  incorrect_chars s' = sum_list_with judged_incorrect (take (index s') (words s')).
Proof.
  intros H. step_cases H; intros Hc Hi;
    try (unfold current_word in Hw; pose proof Hw as Hlt; apply lookup_lt_Some in Hlt);
    try clock_cases e s;
    unfold counted, _extend_words, start_clock;
    cbn [set_ended_at set_words set_total_keystrokes set_started_at set_view_start
         cfg words index view_start started_at ended_at total_keystrokes
         correct_chars incorrect_chars completed_words];
    rewrite ?Nat.add_1_r;
    rewrite ?take_insert_ge by lia;
    rewrite ?take_app_le by lia;
    rewrite ?(take_S_r _ _ _ Hw), ?sum_list_with_app;
    cbn [sum_list_with]; rewrite <- ?Hc, <- ?Hi; split; lia.
Qed.

(** X23. In every state reached from a fresh session, [correct_chars] and
    [incorrect_chars] are the sums, over the words before the index as they
    stand in the stream, of what a submission counts for each: the matching
    positions, and the mismatching or extra positions plus the untyped
    rest. *)
Theorem counters_match_submitted_words (c : Config.t) (e0 : Env) (ops : list op)
        (st : TypingSession) :
  run ops (init c e0) = Some st →
  correct_chars st = sum_list_with judged_correct (take (index st) (words st)) ∧
  incorrect_chars st = sum_list_with judged_incorrect (take (index st) (words st)).
Proof.
  apply (run_invariant_all
           (λ x, correct_chars x = sum_list_with judged_correct (take (index x) (words x)) ∧
                 incorrect_chars x
                 = sum_list_with judged_incorrect (take (index x) (words x)))).
  - intros o x x' [Hc Hi] Ho. apply apply_op_is_step in Ho.
    now apply (step_accounting o x x').
  - split; reflexivity.
Qed.

Lemma counters_match_submitted_words_witness :
  ∃ s', run [Key fresh_env 99; Key fresh_env 111; Key fresh_env 116; Key fresh_env 32;
             Key fresh_env 32]
            (init pair_cfg fresh_env) = Some s' ∧
        correct_chars s' = 2 ∧ incorrect_chars s' = 4.
Proof.
  destruct (run [Key fresh_env 99; Key fresh_env 111; Key fresh_env 116; Key fresh_env 32;
                 Key fresh_env 32]
                (init pair_cfg fresh_env)) as [s'|] eqn:Hr;
    [|vm_compute in Hr; discriminate Hr].
  exists s'. split; [reflexivity|].
  destruct (counters_match_submitted_words _ _ _ _ Hr) as [Hc Hi].
  rewrite Hc, Hi. vm_compute in Hr. injection Hr as <-. split; reflexivity.
Defined.

(** ** What a typed string can hold *)

Lemma get_push_char (t : string) (c : ascii) :
  ∀ i c', String.get i (push_char t c) = Some c' →
          String.get i t = Some c' ∨ c' = c.
Proof.
  unfold push_char. induction t as [|a t IH]; intros i c'.
  - destruct i; cbn; [intros [= <-]; now right | discriminate].
  - rewrite append_cons. destruct i; cbn [String.get]; [now left | apply IH].
Qed.

Lemma get_drop_last (t : string) :
  ∀ i c, String.get i (drop_last t) = Some c → String.get i t = Some c.
Proof.
  induction t as [|a t IH]; intros i c; [discriminate|].
  destruct t as [|b t]; [discriminate|].
  change (drop_last (String a (String b t))) with (String a (drop_last (String b t))).
  destruct i; cbn [String.get]; [auto | apply IH].
Qed.

Lemma chr_code (ch : Z) :
  types_char ch = true → Z.of_N (N_of_ascii (chr ch)) = ch.
Proof.
  unfold types_char, chr. rewrite andb_true_iff, !Z.leb_le. intros [? ?].
  rewrite N_ascii_embedding by lia. lia.
Qed.

Lemma typed_ok_empty : typed_ok "".
Proof. intros i c. destruct i; discriminate. Qed.

Lemma step_typed (o : op) (s s' : TypingSession) :
  step o s s' →
  Forall (λ wd, typed_ok (typed wd)) (words s) →
  (∀ i wd, index s < i → words s !! i = Some wd → typed wd = "") →
  Forall (λ wd, typed_ok (typed wd)) (words s') ∧
  (∀ i wd, index s' < i → words s' !! i = Some wd → typed wd = "").
Proof.
  intros H. step_cases H; intros Hok Hahead;
    try (unfold current_word in Hw; pose proof Hw as Hlt; apply lookup_lt_Some in Hlt);
    try clock_cases e s;
    unfold counted, _extend_words, start_clock;
    cbn [set_ended_at set_words set_total_keystrokes set_started_at set_view_start
         cfg words index view_start started_at ended_at total_keystrokes
         correct_chars incorrect_chars completed_words];
    try (split; [exact Hok | exact Hahead]);
    try (split; [exact Hok | intros i wd Hi; apply Hahead; lia]).
  all: try (split;
            [ apply Forall_app; split; [exact Hok|];
              apply Forall_forall; intros wd Hin;
              apply list_elem_of_fmap in Hin as (x & -> & _); apply typed_ok_empty
            | intros i wd Hi Hlk; apply lookup_app_Some in Hlk as [Hlk | [_ Hlk]];
              [ apply (Hahead i wd); [lia | exact Hlk]
              | apply list_lookup_fmap_Some in Hlk as (x & -> & _); reflexivity ] ]).
  all: split;
    [ apply Forall_insert; [exact Hok|]; cbn [set_typed typed];
      pose proof (Forall_lookup_1 _ _ _ _ Hok Hw) as Hw_ok; cbn beta in Hw_ok;
      destruct Ht' as [-> | [Htc ->]];
      [ intros i c Hg; apply Hw_ok with i; now apply get_drop_last
      | intros i c Hg; apply get_push_char in Hg as [Hg | ->];
        [ now apply Hw_ok with i
        | rewrite (chr_code _ Htc); unfold types_char in Htc;
          rewrite andb_true_iff, !Z.leb_le in Htc; lia ] ]
    | intros i wd Hi Hlk; rewrite list_lookup_insert_ne in Hlk by lia;
      now apply (Hahead i wd) ].
Qed.

(** X24. In every state reached from a fresh session, a typed string holds only
    characters with codes 33..126 (never a space, which submits, nor a
    control character), and the words after the current one have not been
    typed in. *)
Theorem typed_strings_are_clean (c : Config.t) (e0 : Env) (ops : list op)
        (st : TypingSession) :
  run ops (init c e0) = Some st →
  ∀ i wd, words st !! i = Some wd →
          typed_ok (typed wd) ∧ (index st < i → typed wd = "").
Proof.
  intros Hr.
  enough (Hinv : Forall (λ wd, typed_ok (typed wd)) (words st) ∧
                 (∀ i wd, index st < i → words st !! i = Some wd → typed wd = "")).
  { destruct Hinv as [Hok Hahead]. intros i wd Hwd. split.
    - exact (Forall_lookup_1 _ _ _ _ Hok Hwd).
    - intros Hi. now apply (Hahead i wd). }
  revert Hr.
  apply (run_invariant_all
           (λ x, Forall (λ wd, typed_ok (typed wd)) (words x) ∧
                 (∀ i wd, index x < i → words x !! i = Some wd → typed wd = ""))).
  - intros o x x' [Hok Hahead] Ho. apply apply_op_is_step in Ho.
    apply (step_typed o x x'); auto.
  - split.
    + apply Forall_forall. intros wd Hin.
      apply list_elem_of_fmap in Hin as (x & -> & _). apply typed_ok_empty.
    + intros i wd _ Hlk. cbn in Hlk.
      apply list_lookup_fmap_Some in Hlk as (x & -> & _). reflexivity.
Qed.

Lemma typed_strings_are_clean_witness :
  ∃ s', run [Key fresh_env 99; Key fresh_env 32; Key fresh_env 100]
            (init pair_cfg fresh_env) = Some s' ∧
        ∀ wd, words s' !! 1 = Some wd → typed_ok (typed wd).
Proof.
  destruct (run [Key fresh_env 99; Key fresh_env 32; Key fresh_env 100]
                (init pair_cfg fresh_env)) as [s'|] eqn:Hr;
    [|vm_compute in Hr; discriminate Hr].
  exists s'. split; [reflexivity|]. intros wd Hwd.
  exact (proj1 (typed_strings_are_clean _ _ _ _ Hr 1 wd Hwd)).
Defined.

(** ** Counting along both strings *)

Lemma ltb_S (i n : nat) : (S i <? S n) = (i <? n).
Proof. reflexivity. Qed.

Lemma judge_shift (b : ascii) (g rest : string) :
  ∀ i cc ic, judge (String b g) rest (S i) cc ic = judge g rest i cc ic.
Proof.
  induction rest as [|c r IH]; intros i cc ic; [reflexivity|].
  cbn [judge String.length String.get]. rewrite ltb_S.
  destruct (_ && _); apply IH.
Qed.

Lemma judge_empty (rest : string) :
  ∀ i cc ic, judge "" rest i cc ic = (cc, ic + String.length rest).
Proof.
  induction rest as [|c r IH]; intros i cc ic; cbn [judge String.length].
  - f_equal. lia.
  - change (i <? 0) with false. cbn [andb]. rewrite IH. f_equal. lia.
Qed.

Lemma judge_agree (t : string) :
  ∀ g cc ic,
    judge g t 0 cc ic =
    (cc + agree t g, ic + differ t g + (String.length t - String.length g)).
Proof.
  induction t as [|c r IH]; intros g cc ic.
  - cbn. f_equal; lia.
  - destruct g as [|b g].
    + rewrite judge_empty. cbn. f_equal; lia.
    + cbn [judge String.length String.get agree differ].
      change (0 <? S (String.length g)) with true. cbn [andb].
      rewrite !judge_shift.
      destruct (Ascii.eqb_spec c b) as [->|Hne].
      * rewrite bool_decide_eq_true_2 by reflexivity. rewrite IH.
        cbn [Nat.sub]. f_equal; lia.
      * rewrite bool_decide_eq_false_2 by congruence. rewrite IH.
        cbn [Nat.sub]. f_equal; lia.
Qed.

Lemma judged_as_agree (wd : WordState) :
  judged_correct wd = agree (typed wd) (target wd) ∧
  length (incorrect_positions (typed wd) (target wd))
  = differ (typed wd) (target wd)
    + (String.length (typed wd) - String.length (target wd)).
Proof.
  pose proof (judge_spec (typed wd) (target wd) 0 0) as H.
  rewrite judge_agree in H. injection H as H1 H2.
  unfold judged_correct. split; lia.
Qed.

(** ** The cells a word is drawn with *)

Lemma count_attr_cons (a : attr) (c : call) (l : list call) :
  count_attr a (c :: l)
  = (if attr_eqb (call_attr c) a then 1 else 0) + count_attr a l.
Proof. unfold count_attr. cbn. now destruct (attr_eqb _ _). Qed.

Lemma count_attr_app (a : attr) (l k : list call) :
  count_attr a (l ++ k) = count_attr a l + count_attr a k.
Proof. unfold count_attr. now rewrite List.filter_app, length_app. Qed.

Lemma result_loop_shift (a : ascii) (t : string) (y x : Z) (g : string) :
  ∀ i, result_loop (String a t) y x g (S i) = result_loop t y (x + 1) g i.
Proof.
  induction g as [|ch g IH]; intros i; [reflexivity|].
  cbn [result_loop String.length String.get]. rewrite ltb_S, IH.
  replace (x + Z.of_nat (S i))%Z with (x + 1 + Z.of_nat i)%Z by lia.
  reflexivity.
Qed.

Lemma progress_loop_shift (a : ascii) (t : string) (y x : Z) (g : string) :
  ∀ i, progress_loop (String a t) y x g (S i) = progress_loop t y (x + 1) g i.
Proof.
  induction g as [|ch g IH]; intros i; [reflexivity|].
  cbn [progress_loop String.length String.get]. rewrite ltb_S, IH.
  replace (x + Z.of_nat (S i))%Z with (x + 1 + Z.of_nat i)%Z by lia.
  reflexivity.
Qed.

Lemma result_loop_untyped (y x : Z) (g : string) :
  ∀ i, count_attr correct_attr (result_loop "" y x g i) = 0 ∧
       count_attr wrong_attr (result_loop "" y x g i) = 0 ∧
       count_attr no_attr (result_loop "" y x g i) = String.length g.
Proof.
  induction g as [|ch g IH]; intros i; [now cbn|].
  cbn [result_loop String.length]. change (i <? 0) with false. cbn [andb].
  rewrite !count_attr_cons. cbn [call_attr attr_eqb].
  destruct (IH (S i)) as (-> & -> & ->). auto.
Qed.

Lemma progress_loop_untyped (y x : Z) (g : string) :
  ∀ i, count_attr correct_attr (progress_loop "" y x g i) = 0 ∧
       count_attr wrong_attr (progress_loop "" y x g i) = 0 ∧
       count_attr cur_attr (progress_loop "" y x g i) = String.length g.
Proof.
  induction g as [|ch g IH]; intros i; [now cbn|].
  cbn [progress_loop String.length]. change (i <? 0) with false. cbv iota.
  rewrite !count_attr_cons. cbn [call_attr attr_eqb].
  destruct (IH (S i)) as (-> & -> & ->). auto.
Qed.

Lemma result_loop_census (g : string) :
  ∀ t y x,
    count_attr correct_attr (result_loop t y x g 0) = agree t g ∧
    count_attr wrong_attr (result_loop t y x g 0) = differ t g ∧
    count_attr no_attr (result_loop t y x g 0)
    = String.length g - String.length t.
Proof.
  induction g as [|ch g IH]; intros t y x.
  - destruct t; cbn; auto.
  - destruct t as [|a t].
    + destruct (result_loop_untyped y x (String ch g) 0) as (-> & -> & ->).
      cbn. auto.
    + cbn [result_loop String.length String.get agree differ].
      change (0 <? S (String.length t)) with true. cbn [andb].
      rewrite result_loop_shift. rewrite !count_attr_cons.
      destruct (IH t y (x + 1)%Z) as (-> & -> & ->).
      destruct (Ascii.eqb_spec a ch) as [->|Hne].
      * rewrite bool_decide_eq_true_2 by reflexivity. cbn. auto.
      * rewrite bool_decide_eq_false_2 by congruence. cbn. auto.
Qed.

Lemma progress_loop_census (g : string) :
  ∀ t y x,
    count_attr correct_attr (progress_loop t y x g 0) = agree t g ∧
    count_attr wrong_attr (progress_loop t y x g 0) = differ t g ∧
    count_attr cur_attr (progress_loop t y x g 0)
    = String.length g - String.length t.
Proof.
  induction g as [|ch g IH]; intros t y x.
  - destruct t; cbn; auto.
  - destruct t as [|a t].
    + destruct (progress_loop_untyped y x (String ch g) 0) as (-> & -> & ->).
      cbn. auto.
    + cbn [progress_loop String.length String.get agree differ].
      change (0 <? S (String.length t)) with true. cbv iota.
      rewrite progress_loop_shift. rewrite !count_attr_cons.
      destruct (IH t y (x + 1)%Z) as (-> & -> & ->).
      destruct (Ascii.eqb_spec a ch) as [->|Hne].
      * rewrite bool_decide_eq_true_2 by reflexivity. cbn. auto.
      * rewrite bool_decide_eq_false_2 by congruence. cbn. auto.
Qed.

(** Rows and columns of the cells of the two target loops. *)
Lemma result_loop_cells (t : string) (y x : Z) (g : string) :
  ∀ i, Forall (λ c, call_y c = y) (result_loop t y x g i) ∧
       map call_x (result_loop t y x g i)
       = map (λ k, (x + Z.of_nat k)%Z) (seq i (String.length g)).
Proof.
  induction g as [|ch g IH]; intros i; [split; [constructor | reflexivity]|].
  cbn [result_loop String.length seq map]. destruct (IH (S i)) as [Hy Hx].
  split.
  - constructor; [|exact Hy].
    destruct (_ && _); [reflexivity|]. destruct (i <? _); reflexivity.
  - rewrite Hx. f_equal.
    destruct (_ && _); [reflexivity|]. destruct (i <? _); reflexivity.
Qed.

Lemma progress_loop_cells (t : string) (y x : Z) (g : string) :
  ∀ i, Forall (λ c, call_y c = y) (progress_loop t y x g i) ∧
       map call_x (progress_loop t y x g i)
       = map (λ k, (x + Z.of_nat k)%Z) (seq i (String.length g)).
Proof.
  induction g as [|ch g IH]; intros i; [split; [constructor | reflexivity]|].
  cbn [progress_loop String.length seq map]. destruct (IH (S i)) as [Hy Hx].
  split.
  - constructor; [|exact Hy].
    destruct (i <? _); [destruct (bool_decide _)|]; reflexivity.
  - rewrite Hx. f_equal.
    destruct (i <? _); [destruct (bool_decide _)|]; reflexivity.
Qed.

(** The loop over the extra characters never indexes [typed] out of range
    when it runs over at most the characters that [typed] has beyond the
    target. *)
Lemma extra_loop_total (t g : string) (y x : Z) (n : nat) :
  n ≤ String.length t - String.length g →
  ∃ calls, extra_loop t g y x n = Some calls ∧
    length calls = n ∧
    Forall (λ c, call_y c = y ∧ call_attr c = wrong_attr) calls ∧
    map call_x calls
    = map (λ j, (x + Z.of_nat (String.length g) + Z.of_nat j)%Z) (seq 0 n).
Proof.
  intros Hlen. unfold extra_loop.
  assert (Hall : ∀ js : list nat,
             Forall (λ j, j < n) js →
             ∃ calls,
               mapM (λ j, ch ← String.get (String.length g + j) t;
                          Some (addch y (x + Z.of_nat (String.length g) + Z.of_nat j)
                                      ch wrong_attr)) js = Some calls ∧
               length calls = length js ∧
               Forall (λ c, call_y c = y ∧ call_attr c = wrong_attr) calls ∧
               map call_x calls
               = map (λ j, (x + Z.of_nat (String.length g) + Z.of_nat j)%Z) js).
  { induction js as [|j js IH]; intros Hjs.
    - exists []. repeat split; constructor.
    - apply Forall_cons in Hjs as [Hj Hjs]. destruct (IH Hjs) as (calls & Hm & Hl & Hf & Hx).
      destruct (get_in_range t (String.length g + j) ltac:(lia)) as [ch Hch].
      eexists. cbn [mapM]. rewrite Hch. cbn [mbind option_bind]. rewrite Hm.
      cbn [mbind option_bind mret option_ret fmap option_fmap option_map].
      split; [reflexivity|]. cbn [length map call_x]. rewrite Hl, Hx.
      repeat split; auto. }
  destruct (Hall (seq 0 n)) as (calls & Hm & Hl & Hf & Hx).
  - apply Forall_forall. intros j Hj. apply elem_of_seq in Hj. lia.
  - exists calls. rewrite length_seq in Hl. auto.
Qed.

Lemma count_attr_all (a b : attr) (calls : list call) :
  Forall (λ c, call_attr c = b) calls →
  count_attr a calls = if attr_eqb b a then length calls else 0.
Proof.
  induction 1 as [|c l Hc _ IH]; [now destruct (attr_eqb b a)|].
  rewrite count_attr_cons, Hc, IH. destruct (attr_eqb b a); reflexivity.
Qed.

Lemma columns_shift (x : Z) (m n : nat) :
  map (λ j, (x + Z.of_nat m + Z.of_nat j)%Z) (seq 0 n)
  = map (λ k, (x + Z.of_nat k)%Z) (seq m n).
Proof.
  revert m. induction n as [|n IH]; intros m; [reflexivity|].
  cbn [seq map]. f_equal; [lia|].
  rewrite <- (IH (S m)). rewrite <- !seq_shift, !map_map.
  apply map_ext. intros j. lia.
Qed.

Lemma columns_from (x : Z) (calls : list call) (l : list nat) :
  map call_x calls = map (λ k, (x + Z.of_nat k)%Z) l →
  Forall (λ c, (x <= call_x c)%Z) calls.
Proof.
  intros Hmap. apply Forall_forall. intros c Hc.
  assert (Hin : call_x c ∈ map call_x calls) by (apply list_elem_of_fmap; eauto).
  rewrite Hmap in Hin. apply list_elem_of_fmap in Hin as (k & -> & _). lia.
Qed.

(** Neither word painter raises an [IndexError], and the calls each makes
    (all of them on a window that takes every cell, a prefix otherwise) are
    one per position of the longer string, left to right from [x] on row
    [y]. *)
Lemma word_painters_geometry (y x : Z) (wd : WordState) :
  let n := Nat.max (String.length (typed wd)) (String.length (target wd)) in
  (∃ calls, draw_word_result y x wd = Some calls ∧
     calls = result_loop (typed wd) y x (target wd) 0
             ++ drop (String.length (target wd)) calls ∧
     Forall (λ c, call_attr c = wrong_attr)
            (drop (String.length (target wd)) calls) ∧
     Forall (λ c, call_y c = y) calls ∧
     map call_x calls = map (λ k, (x + Z.of_nat k)%Z) (seq 0 n)) ∧
  (∃ calls, draw_word_with_progress y x wd = Some calls ∧
     calls = progress_loop (typed wd) y x (target wd) 0
             ++ drop (String.length (target wd)) calls ∧
     Forall (λ c, call_attr c = wrong_attr)
            (drop (String.length (target wd)) calls) ∧
     Forall (λ c, call_y c = y) calls ∧
     map call_x calls = map (λ k, (x + Z.of_nat k)%Z) (seq 0 n)).
Proof.
  cbv zeta.
  set (t := typed wd). set (g := target wd).
  destruct (result_loop_cells t y x g 0) as [Hry Hrx].
  destruct (progress_loop_cells t y x g 0) as [Hpy Hpx].
  assert (Hrl : length (result_loop t y x g 0) = String.length g).
  { rewrite <- (length_map call_x), Hrx, length_map. apply length_seq. }
  assert (Hpl : length (progress_loop t y x g 0) = String.length g).
  { rewrite <- (length_map call_x), Hpx, length_map. apply length_seq. }
  destruct (extra_loop_total t g y x (String.length t - String.length g))
    as (ex & Hex & Hexl & Hexf & Hexx); [lia|].
  assert (Hcols : ∀ cells : list call,
             length cells = String.length g →
             map call_x cells = map (λ k, (x + Z.of_nat k)%Z) (seq 0 (String.length g)) →
             map call_x (cells ++ ex)
             = map (λ k, (x + Z.of_nat k)%Z)
                   (seq 0 (Nat.max (String.length t) (String.length g)))).
  { intros cells Hl Hx. rewrite map_app, Hx, Hexx, columns_shift, <- map_app.
    rewrite <- seq_app. f_equal. f_equal. lia. }
  assert (Hwrong : Forall (λ c, call_attr c = wrong_attr) ex)
    by (eapply Forall_impl; [exact Hexf|]; now intros c [_ ?]).
  assert (Hrow : Forall (λ c, call_y c = y) ex)
    by (eapply Forall_impl; [exact Hexf|]; now intros c [? _]).
  split.
  - unfold draw_word_result. fold t g.
    destruct (Nat.ltb_spec (String.length g) (String.length t)) as [Hlt|Hge].
    + rewrite Hex. cbn [mbind option_bind]. eexists. split; [reflexivity|].
      rewrite drop_app_length' by (symmetry; exact Hrl).
      split; [reflexivity|]. split; [exact Hwrong|].
      split; [apply Forall_app; auto | now apply Hcols].
    + exists (result_loop t y x g 0). split; [reflexivity|].
      rewrite drop_ge by lia. rewrite app_nil_r.
      split; [reflexivity|]. split; [constructor|]. split; [exact Hry|].
      rewrite Hrx. f_equal. f_equal. lia.
  - unfold draw_word_with_progress, extra_count. fold t g.
    rewrite Hex. cbn [mbind option_bind]. eexists. split; [reflexivity|].
    rewrite drop_app_length' by (symmetry; exact Hpl).
    split; [reflexivity|]. split; [exact Hwrong|].
    split; [apply Forall_app; auto | now apply Hcols].
Qed.

Lemma length_of_columns (x : Z) (calls : list call) (n : nat) :
  map call_x calls = map (λ k, (x + Z.of_nat k)%Z) (seq 0 n) → length calls = n.
Proof.
  intros H. rewrite <- (length_map call_x), H, length_map. apply length_seq.
Qed.

(** X25. [draw_word_result] raises no [IndexError], and the [addch] calls it makes
    on a window that takes every cell (a real window that rejects one with
    [curses.error] receives a prefix of them) show what the submission
    counted: as many cells in the correct colour as [correct_chars] gained
    for the word, as many in the wrong colour as it had mismatching or extra
    characters, and the untyped rest without colour; the wrong and the
    uncoloured cells together are what [incorrect_chars] gained.  The cells
    run left to right from [x] on row [y], one per position of the longer of
    the two strings. *)
Theorem draw_word_result_shows_judgement (y x : Z) (wd : WordState) :
  ∃ calls, draw_word_result y x wd = Some calls ∧
    count_attr correct_attr calls = judged_correct wd ∧
    count_attr wrong_attr calls
    = length (incorrect_positions (typed wd) (target wd)) ∧
    count_attr no_attr calls
    = String.length (target wd) - String.length (typed wd) ∧
    count_attr wrong_attr calls + count_attr no_attr calls = judged_incorrect wd ∧
    Forall (λ c, call_y c = y) calls ∧
    map call_x calls
    = map (λ k, (x + Z.of_nat k)%Z)
          (seq 0 (Nat.max (String.length (typed wd)) (String.length (target wd)))).
Proof.
  destruct (proj1 (word_painters_geometry y x wd))
    as (calls & Hsome & Hsplit & Hextra & Hy & Hx).
  exists calls. split; [exact Hsome|].
  destruct (result_loop_census (target wd) (typed wd) y x) as (Hc & Hw & Hn).
  destruct (judged_as_agree wd) as [Hjc Hji].
  pose proof (length_of_columns _ _ _ Hx) as Hlen.
  assert (Hdl : length (drop (String.length (target wd)) calls)
                = String.length (typed wd) - String.length (target wd))
    by (rewrite length_drop; lia).
  assert (Hcount : ∀ a,
             count_attr a calls
             = count_attr a (result_loop (typed wd) y x (target wd) 0)
               + (if attr_eqb wrong_attr a
                  then String.length (typed wd) - String.length (target wd) else 0)).
  { intros a. rewrite Hsplit at 1. rewrite count_attr_app.
    rewrite (count_attr_all a wrong_attr _ Hextra), Hdl. reflexivity. }
  rewrite !Hcount, Hc, Hw, Hn. cbn [attr_eqb]. unfold judged_incorrect.
  repeat split; auto; lia.
Qed.

Lemma draw_word_result_shows_judgement_witness :
  ∃ calls, draw_word_result 3 1 (mkWordState "hi" "hire") = Some calls ∧
           count_attr correct_attr calls = 2 ∧ count_attr wrong_attr calls = 2 ∧
           map call_x calls = [1; 2; 3; 4]%Z.
Proof.
  destruct (draw_word_result_shows_judgement 3 1 (mkWordState "hi" "hire"))
    as (calls & Hsome & Hc & Hw & _ & _ & _ & Hx).
  exists calls. split; [exact Hsome|]. split; [exact Hc|]. split; [exact Hw | exact Hx].
Defined.

(** X26. [draw_word_with_progress] raises no [IndexError] either, and the [addch]
    calls it makes on a window that takes every cell (a prefix of them
    otherwise) paint the current word the same way, with the cursor
    attribute on the target characters not typed yet: correct and wrong
    cells as a submission would count them, and a word with extra characters
    takes [extra_count] columns more than its target. *)
Theorem draw_word_with_progress_cells (y x : Z) (wd : WordState) :
  ∃ calls, draw_word_with_progress y x wd = Some calls ∧
    count_attr correct_attr calls = judged_correct wd ∧
    count_attr wrong_attr calls
    = length (incorrect_positions (typed wd) (target wd)) ∧
    count_attr cur_attr calls
    = String.length (target wd) - String.length (typed wd) ∧
    length calls = String.length (target wd) + extra_count wd ∧
    Forall (λ c, call_y c = y) calls ∧
    map call_x calls
    = map (λ k, (x + Z.of_nat k)%Z)
          (seq 0 (String.length (target wd) + extra_count wd)).
Proof.
  destruct (proj2 (word_painters_geometry y x wd))
    as (calls & Hsome & Hsplit & Hextra & Hy & Hx).
  exists calls. split; [exact Hsome|].
  destruct (progress_loop_census (target wd) (typed wd) y x) as (Hc & Hw & Hn).
  destruct (judged_as_agree wd) as [Hjc Hji].
  pose proof (length_of_columns _ _ _ Hx) as Hlen.
  assert (Hdl : length (drop (String.length (target wd)) calls)
                = String.length (typed wd) - String.length (target wd))
    by (rewrite length_drop; lia).
  assert (Hcount : ∀ a,
             count_attr a calls
             = count_attr a (progress_loop (typed wd) y x (target wd) 0)
               + (if attr_eqb wrong_attr a
                  then String.length (typed wd) - String.length (target wd) else 0)).
  { intros a. rewrite Hsplit at 1. rewrite count_attr_app.
    rewrite (count_attr_all a wrong_attr _ Hextra), Hdl. reflexivity. }
  rewrite !Hcount, Hc, Hw, Hn. cbn [attr_eqb]. unfold extra_count.
  replace (String.length (target wd)
           + (String.length (typed wd) - String.length (target wd)))
    with (Nat.max (String.length (typed wd)) (String.length (target wd))) by lia.
  repeat split; auto; lia.
Qed.

Lemma draw_word_with_progress_cells_witness :
  ∃ calls, draw_word_with_progress 3 1 (mkWordState "cat" "co") = Some calls ∧
           count_attr correct_attr calls = 1 ∧ count_attr wrong_attr calls = 1 ∧
           count_attr cur_attr calls = 1 ∧ length calls = 3.
Proof.
  destruct (draw_word_with_progress_cells 3 1 (mkWordState "cat" "co"))
    as (calls & Hsome & Hc & Hw & Hn & Hl & _).
  exists calls. split; [exact Hsome|]. split; [exact Hc|]. split; [exact Hw|].
  split; [exact Hn | exact Hl].
Defined.

(** ** The whole drawing pass *)

Lemma layout_position_bounds (s : TypingSession) (height width : Z) (start_idx : nat)
      (p : position) :
  p ∈ fst (layout s height width start_idx) →
  p.1.1 < length (words s) ∧ (0 <= p.1.2 < height)%Z ∧ (0 <= p.2)%Z.
Proof.
  intros Hin. apply list_elem_of_lookup in Hin as [j Hp].
  destruct (layout_lookup_word _ _ _ _ _ _ Hp) as (_ & wd & Hwd & _).
  split; [eapply lookup_lt_Some; eauto|].
  rewrite layout_placing in Hp.
  pose proof (placing_cells height width (drop start_idx (words s)) start_idx 0 0
                (Z.le_refl 0)) as Hc.
  rewrite Forall_forall in Hc. apply Hc. apply list_elem_of_lookup. eauto.
Qed.

Lemma draw_position_ok (s : TypingSession) (start_y height width x : Z) (p : position) :
  p.1.1 < length (words s) → (0 <= p.1.2 < height)%Z → (0 <= p.2)%Z →
  ∃ calls, draw_position s start_y width x p = Some calls ∧
    Forall (λ c, (start_y <= call_y c < start_y + height)%Z ∧ (x <= call_x c)%Z) calls.
Proof.
  destruct p as [[idx rel_y] rel_x]. cbn [fst snd]. intros Hidx Hy Hx.
  apply lookup_lt_is_Some_2 in Hidx as [word Hword].
  unfold draw_position. rewrite Hword. cbn [mbind option_bind].
  destruct (word_painters_geometry (start_y + rel_y) (x + rel_x) word)
    as [(rc & Hr & _ & _ & Hry & Hrx) (pc & Hp & _ & _ & Hpy & Hpx)].
  assert (Hgood : ∀ calls l,
             Forall (λ c, call_y c = (start_y + rel_y)%Z) calls →
             map call_x calls = map (λ k, (x + rel_x + Z.of_nat k)%Z) l →
             Forall (λ c, (start_y <= call_y c < start_y + height)%Z ∧
                          (x <= call_x c)%Z) calls).
  { intros calls l Hrow Hcol. apply columns_from in Hcol.
    rewrite Forall_forall in *. intros c Hc.
    specialize (Hrow c Hc). specialize (Hcol c Hc). lia. }
  destruct (idx =? index s).
  - exists pc. split; [exact Hp | eapply Hgood; eauto].
  - destruct (_ && _).
    + exists rc. split; [exact Hr | eapply Hgood; eauto].
    + eexists. split; [reflexivity|]. constructor; [cbn; lia | constructor].
Qed.

Lemma draw_positions_ok (s : TypingSession) (start_y height width x : Z)
      (ps : list position) :
  Forall (λ p : position,
            p.1.1 < length (words s) ∧ (0 <= p.1.2 < height)%Z ∧ (0 <= p.2)%Z) ps →
  ∃ css, mapM (draw_position s start_y width x) ps = Some css ∧
    Forall (λ c, (start_y <= call_y c < start_y + height)%Z ∧ (x <= call_x c)%Z)
           (List.concat css).
Proof.
  induction 1 as [|p ps (H1 & H2 & H3) _ (css & Hm & Hall)].
  - exists []. split; [reflexivity | constructor].
  - destruct (draw_position_ok s start_y height width x p H1 H2 H3) as (cs & Hd & Hcs).
    exists (cs :: css). cbn [mapM]. rewrite Hd. cbn [mbind option_bind]. rewrite Hm.
    split; [reflexivity|]. cbn [List.concat]. apply Forall_app. auto.
Qed.

(** X27. The drawing pass never raises an [IndexError], for any session and any
    viewport, and every call it makes stays on the rows
    [start_y .. start_y + height - 1] of the typing area and starts at
    column [x] or to its right. *)
Theorem draw_pass_stays_in_its_rows (s : TypingSession) (start_y height width x : Z) :
  ∃ calls,
    draw_words_area_calls s start_y height width x
    = (fst (draw_words_area s height width), Some calls) ∧
    Forall (λ c, (start_y <= call_y c < start_y + height)%Z ∧ (x <= call_x c)%Z)
           calls.
Proof.
  unfold draw_words_area_calls. cbv zeta.
  set (s' := fst (draw_words_area s height width)).
  assert (Hps : Forall (λ p : position,
                   p.1.1 < length (words s') ∧ (0 <= p.1.2 < height)%Z ∧ (0 <= p.2)%Z)
                  (snd (draw_words_area s height width))).
  { apply Forall_forall. intros p Hp. subst s'.
    rewrite draw_words_area_unfold in *. cbv zeta in *. cbn [fst snd] in *.
    apply layout_position_bounds in Hp. exact Hp. }
  destruct (draw_positions_ok s' start_y height width x _ Hps) as (css & Hm & Hall).
  exists (List.concat css). rewrite Hm. split; [reflexivity | exact Hall].
Qed.

Lemma draw_pass_stays_in_its_rows_witness :
  ∃ calls, snd (draw_words_area_calls third_word_session 3 2 6 1) = Some calls ∧
           Forall (λ c, (3 <= call_y c < 5)%Z ∧ (1 <= call_x c)%Z) calls.
Proof.
  destruct (draw_pass_stays_in_its_rows third_word_session 3 2 6 1)
    as (calls & Heq & Hall).
  exists calls. rewrite Heq. split; [reflexivity | exact Hall].
Defined.

(** ** When [handle_key] raises *)

(** X28. [handle_key] raises (an [IndexError] from [current_word()]) exactly when
    the session is not finished, the index is at or past the end of the word
    list, and the key is one that looks at the current word: a backspace, a
    submit or a printable key.  Keys it ignores never raise. *)
Theorem handle_key_raises_iff (e : Env) (ch : Z) (s : TypingSession) :
  handle_key e ch s = None ↔
  is_finished s = false ∧ length (words s) ≤ index s ∧ is_ignored ch = false.
Proof.
  split.
  - intros Hnone.
    destruct (is_finished s) eqn:Hf;
      [rewrite handle_key_finished in Hnone by exact Hf; discriminate|].
    split; [reflexivity|].
    destruct (decide (index s < length (words s))) as [Hlt|Hge].
    + destruct (handle_key_total e ch s (λ _, Hlt)) as [s' Hs']. congruence.
    + split; [lia|].
      rewrite (handle_key_unfold _ _ _ Hf) in Hnone. cbn zeta in Hnone.
      unfold is_ignored.
      destruct (is_backspace ch); [reflexivity|].
      destruct (is_submit ch); [reflexivity|].
      destruct (is_printable ch); [reflexivity | discriminate].
  - intros (Hf & Hge & Hig).
    rewrite (handle_key_unfold _ _ _ Hf). cbn zeta.
    assert (Hcw : current_word (start_clock e s) = None).
    { rewrite current_word_start_clock. apply lookup_ge_None. lia. }
    unfold is_ignored in Hig. unfold _submit_word. rewrite Hcw.
    destruct (is_backspace ch); [reflexivity|].
    destruct (is_submit ch); [reflexivity|].
    destruct (is_printable ch); [reflexivity | discriminate].
Qed.

Lemma handle_key_raises_iff_witness :
  handle_key quiet_env 97 (init (Config.mk "words" 60 0 None None) quiet_env) = None.
Proof.
  apply (proj2 (handle_key_raises_iff quiet_env 97
                  (init (Config.mk "words" 60 0 None None) quiet_env))).
  split; [reflexivity|]. split; [simpl; lia | reflexivity].
Defined.

(** ** Layout: a taller viewport *)

Lemma place_taller (height height' width y x0 w : Z) (r : Z * Z) :
  (height <= height')%Z →
  place height width y x0 w = Some r → place height' width y x0 w = Some r.
Proof.
  unfold place. intros Hh.
  destruct (Z.ltb_spec y height); cbn [negb]; [|discriminate].
  destruct (Z.ltb_spec y height'); [|lia]. cbn [negb]. cbv zeta.
  destruct (width <? _)%Z; [|auto].
  destruct (Z.leb_spec height (y + 1)); [discriminate|].
  destruct (Z.leb_spec height' (y + 1)); [lia | auto].
Qed.

Lemma placing_taller (height height' width : Z) (ws : list WordState) :
  (height <= height')%Z →
  ∀ idx y x0,
    placing height width ws idx y x0 `prefix_of` placing height' width ws idx y x0.
Proof.
  intros Hh. induction ws as [|wd rest IH]; intros idx y x0; cbn [placing];
    [reflexivity|].
  cbv zeta. destruct (place height _ _ _ _) as [[y1 x2]|] eqn:Hp;
    [|apply prefix_nil].
  rewrite (place_taller _ _ _ _ _ _ _ Hh Hp). apply prefix_cons, IH.
Qed.

(** X29. Making the viewport taller never moves or hides a word: the positions
    laid out in the shorter viewport are the first positions laid out in
    the taller one. *)
Theorem taller_viewport_keeps_positions (s : TypingSession) (height height' width : Z)
        (start_idx : nat) :
  (height <= height')%Z →
  fst (layout s height width start_idx)
  `prefix_of` fst (layout s height' width start_idx).
Proof.
  intros Hh. rewrite !layout_placing. now apply placing_taller.
Qed.

Lemma taller_viewport_keeps_positions_witness :
  fst (layout third_word_session 1 6 0)
  `prefix_of` fst (layout third_word_session 3 6 0).
Proof.
  apply (taller_viewport_keeps_positions third_word_session 1 3 6 0). lia.
Defined.
